(** * The HEIC convert-and-resize Lambda handler (src/index.mjs)

    A shallow embedding of the handler and of the runtime functions it calls,
    followed by the properties of the handler.

    Strings.  A JavaScript string is modelled by a Rocq [string] holding its
    UTF-8 bytes.  The handler looks only for the characters '+', '%', '/' and
    '.', which are single bytes that never occur inside a multi-byte
    sequence, so searching, splitting and slicing agree with the UTF-16
    original.  [toLowerCase] lowercases the letters A-Z; the two comparisons
    the handler makes after lowercasing (with 'true' and with 'heic') have
    the same truth value as in JavaScript, where no other character
    lowercases to one of those letters.  A capital letter outside A-Z stays
    as it is, so for such an extension the text of the logged type differs
    from the runtime's; outcomes and commands do not. *)

From Stdlib Require Import ZArith NArith Ascii String List Lia.
From Stdlib.Strings Require Import Byte.
From stdpp Require Import base option list strings gmap.

Local Open Scope string_scope.
Local Open Scope list_scope.
Local Open Scope Z_scope.

(** ** Strings of the runtime *)

Module Js.

Definition chars (s : string) : list ascii := list_ascii_of_string s.
Definition str (l : list ascii) : string := string_of_list_ascii l.

(** [s.charCodeAt(i)]; [None] stands for NaN (index out of range). *)
Definition charCodeAt (s : string) (i : Z) : option ascii :=
  if i <? 0 then None else chars s !! Z.to_nat i.

Definition strlen (s : string) : Z := Z.of_nat (List.length (chars s)).

(** [s.slice(a, b)] for indices that are not negative, the only ones
    [path.posix.parse] passes. *)
Definition slice (s : string) (a b : Z) : string :=
  str (take (Z.to_nat b - Z.to_nat a) (drop (Z.to_nat a) (chars s))).

(** One character of [String.prototype.toLowerCase]. *)
Definition lower_char (c : ascii) : ascii :=
  let n := nat_of_ascii c in
  if (65 <=? n)%nat && (n <=? 90)%nat then ascii_of_nat (n + 32) else c.

Definition toLowerCase (s : string) : string := str (map lower_char (chars s)).

(** [s.replace(/\+/g, " ")]: every '+' becomes a space. *)
Definition replace_plus (s : string) : string :=
  str (map (fun c => if Ascii.eqb c "+" then " "%char else c) (chars s)).

(** [s.replace('.', '')]: a string pattern replaces the first match only. *)
Fixpoint remove_first_dot (l : list ascii) : list ascii :=
  match l with
  | [] => []
  | c :: l' => if Ascii.eqb c "." then l' else c :: remove_first_dot l'
  end.

Definition replace_dot (s : string) : string := str (remove_first_dot (chars s)).

(** *** [decodeURIComponent]

    The Decode operation of ECMAScript with an empty reserved set: a '%' must
    be followed by two hexadecimal digits, and the bytes escaped in a row
    must form well-formed UTF-8; anything else is a URIError ([None]). *)

Definition hex_val (c : ascii) : option N :=
  let n := N_of_ascii c in
  if (48 <=? n)%N && (n <=? 57)%N then Some (n - 48)%N
  else if (65 <=? n)%N && (n <=? 70)%N then Some (n - 55)%N
  else if (97 <=? n)%N && (n <=? 102)%N then Some (n - 87)%N
  else None.

Inductive Token :=
| Lit (c : ascii)
| Esc (b : N).

Fixpoint unescape (l : list ascii) : option (list Token) :=
  match l with
  | [] => Some []
  | c :: l1 =>
      if Ascii.eqb c "%" then
        match l1 with
        | h1 :: h2 :: l3 =>
            match hex_val h1, hex_val h2 with
            | Some a, Some b =>
                match unescape l3 with
                | Some ts => Some (Esc (16 * a + b) :: ts)
                | None => None
                end
            | _, _ => None
            end
        | _ => None
        end
      else
        match unescape l1 with
        | Some ts => Some (Lit c :: ts)
        | None => None
        end
  end.

Definition between (lo hi b : N) : bool := ((lo <=? b) && (b <=? hi))%N.

(** The second byte allowed after lead byte [b] (Unicode, table 3-7). *)
Definition second_ok (b b1 : N) : bool :=
  if (b =? 224)%N then between 160 191 b1
  else if (b =? 237)%N then between 128 159 b1
  else if (b =? 240)%N then between 144 191 b1
  else if (b =? 244)%N then between 128 143 b1
  else between 128 191 b1.

Definition byte_char (b : N) : ascii := ascii_of_N b.

Fixpoint utf8 (ts : list Token) : option (list ascii) :=
  match ts with
  | [] => Some []
  | Lit c :: r =>
      match utf8 r with Some l => Some (c :: l) | None => None end
  | Esc b :: r =>
      if (b <? 128)%N then
        match utf8 r with Some l => Some (byte_char b :: l) | None => None end
      else if between 194 223 b then
        match r with
        | Esc b1 :: r1 =>
            if second_ok b b1 then
              match utf8 r1 with
              | Some l => Some (byte_char b :: byte_char b1 :: l)
              | None => None
              end
            else None
        | _ => None
        end
      else if between 224 239 b then
        match r with
        | Esc b1 :: Esc b2 :: r2 =>
            if second_ok b b1 && between 128 191 b2 then
              match utf8 r2 with
              | Some l => Some (byte_char b :: byte_char b1 :: byte_char b2 :: l)
              | None => None
              end
            else None
        | _ => None
        end
      else if between 240 244 b then
        match r with
        | Esc b1 :: Esc b2 :: Esc b3 :: r3 =>
            if second_ok b b1 && between 128 191 b2 && between 128 191 b3 then
              match utf8 r3 with
              | Some l =>
                  Some (byte_char b :: byte_char b1 :: byte_char b2
                          :: byte_char b3 :: l)
              | None => None
              end
            else None
        | _ => None
        end
      else None
  end.

Definition decodeURIComponent (s : string) : option string :=
  match unescape (chars s) with
  | Some ts => match utf8 ts with Some l => Some (str l) | None => None end
  | None => None
  end.

End Js.

(** ** [path.posix.parse] of the Node.js runtime

    The handler calls [path.posix.parse(srcKey)]; this is the algorithm of
    Node's lib/path.js, one definition per loop and branch. *)

Module Path.

Import Js.

Definition CHAR_FORWARD_SLASH : ascii := "/"%char.
Definition CHAR_DOT : ascii := "."%char.

Record ParsedPath := mkParsed {
  root : string;
  dir : string;
  base : string;
  ext : string;
  name : string
}.

(** The variables the scanning loop updates. *)
Record Scan := mkScan {
  startDot : Z;
  startPart : Z;
  end_ : Z;
  matchedSlash : bool;
  preDotState : Z
}.

Definition scan0 : Scan :=
  {| startDot := -1; startPart := 0; end_ := -1; matchedSlash := true;
     preDotState := 0 |}.

Definition is_code (o : option ascii) (c : ascii) : bool :=
  match o with Some a => Ascii.eqb a c | None => false end.

(** The body of the loop for index [i] when the character is not a path
    separator. *)
Definition scan_char (path : string) (i : Z) (st : Scan) : Scan :=
  let st1 :=
    if end_ st =? -1
    then {| startDot := startDot st; startPart := startPart st;
            end_ := i + 1; matchedSlash := false;
            preDotState := preDotState st |}
    else st in
  if is_code (charCodeAt path i) CHAR_DOT then
    if startDot st1 =? -1
    then {| startDot := i; startPart := startPart st1; end_ := end_ st1;
            matchedSlash := matchedSlash st1; preDotState := preDotState st1 |}
    else if negb (preDotState st1 =? 1)
    then {| startDot := startDot st1; startPart := startPart st1;
            end_ := end_ st1; matchedSlash := matchedSlash st1;
            preDotState := 1 |}
    else st1
  else if negb (startDot st1 =? -1)
  then {| startDot := startDot st1; startPart := startPart st1;
          end_ := end_ st1; matchedSlash := matchedSlash st1;
          preDotState := -1 |}
  else st1.

(** [for (; i >= start; --i)], with [n = i + 1] characters left to look at;
    the loop leaves at [i < start] or at the [break]. *)
Fixpoint scan (path : string) (start : Z) (n : nat) (st : Scan) : Scan :=
  match n with
  | O => st
  | S m =>
      let i := Z.of_nat m in
      if i <? start then st
      else if is_code (charCodeAt path i) CHAR_FORWARD_SLASH then
        if negb (matchedSlash st)
        then {| startDot := startDot st; startPart := i + 1; end_ := end_ st;
                matchedSlash := matchedSlash st;
                preDotState := preDotState st |}
        else scan path start m st
      else scan path start m (scan_char path i st)
  end.

(** The block [if (end !== -1) { ... }]: base, name and ext, which stay
    empty when the block is not entered. *)
Definition segment (path : string) (st : Scan) (start' : Z)
    : string * string * string :=
  if end_ st =? -1 then ("", "", "")
  else if (startDot st =? -1)
       || (preDotState st =? 0)
       || ((preDotState st =? 1) && (startDot st =? end_ st - 1)
           && (startDot st =? startPart st + 1))
  then (slice path start' (end_ st), slice path start' (end_ st), "")
  else (slice path start' (end_ st), slice path start' (startDot st),
        slice path (startDot st) (end_ st)).

Definition parse (path : string) : ParsedPath :=
  if strlen path =? 0 then mkParsed "" "" "" "" "" else
  let isAbsolute := is_code (charCodeAt path 0) CHAR_FORWARD_SLASH in
  let root_ := if isAbsolute then "/" else "" in
  let start := if isAbsolute then 1 else 0 in
  let st := scan path start (Z.to_nat (strlen path)) scan0 in
  let start' := if (startPart st =? 0) && isAbsolute then 1 else startPart st in
  let '(base_, name_, ext_) := segment path st start' in
  let dir_ :=
    if 0 <? startPart st then slice path 0 (startPart st - 1)
    else if isAbsolute then "/" else "" in
  mkParsed root_ dir_ base_ ext_ name_.

End Path.

Import Js Path.

(** ** Values, errors and the outside world *)

Definition Buffer := list byte.

Inductive Error :=
| TypeError (message : string)
| URIError (message : string)
| PlainError (message : string)          (* new Error(message) *)
| ServiceError (name message : string).  (* a rejection of the S3 client,
                                            of heic-convert or of sharp *)

Definition error_name (e : Error) : string :=
  match e with
  | TypeError _ => "TypeError"
  | URIError _ => "URIError"
  | PlainError _ => "Error"
  | ServiceError n _ => n
  end.

Inductive Result (A : Type) :=
| Ok (a : A)
| Fail (e : Error).
Arguments Ok {A} a.
Arguments Fail {A} e.

(** The event of the trigger: [event.Records[i].s3.bucket.name] and
    [event.Records[i].s3.object.key]. *)
Record S3Record := { bucket_name : string; object_key : string }.
Record Event := { Records : option (list S3Record) }.

(** A byte source: the chunks it yields, then its end or a failure. *)
Inductive Source :=
| SEnd
| SChunk (chunk : Buffer) (rest : Source)
| SError (e : Error).

(** The [Body] of a GetObject response, by the methods it has. *)
Record S3Body := {
  read : option Source;                          (* async-iterable Readable *)
  getReader : option Source;                     (* web stream *)
  transformToByteArray : option (Result Buffer)
}.

Record HeadObjectOutput := { Metadata : option (gmap string string) }.
Record GetObjectOutput := { Body : option S3Body }.
Record PutObjectOutput := { ETag : string }.

Record PutObjectInput := {
  put_Bucket : string;
  put_Key : string;
  put_Body : Buffer;
  put_ContentType : string;
  put_Metadata : gmap string string
}.

Inductive Command :=
| HeadObjectCommand (Bucket Key : string)
| GetObjectCommand (Bucket Key : string)
| PutObjectCommand (input : PutObjectInput).

(** What the services answer: S3 for each command, heic-convert for
    [{buffer, format, quality}], sharp for
    [sharp(buffer)[.jpeg({quality})].resize(width).toBuffer()]. *)
Record World := {
  s3_head : string -> string -> Result HeadObjectOutput;
  s3_get : string -> string -> Result GetObjectOutput;
  s3_put : PutObjectInput -> Result PutObjectOutput;
  heicConvert : Buffer -> string -> Z -> Result Buffer;
  sharp : Buffer -> option Z -> Z -> Result Buffer
}.

(** ** Effects of a run: console lines and S3 commands, in order *)

Inductive Level := LevelLog | LevelWarn | LevelError.

Inductive LogArg :=
| LStr (s : string)
| LNum (n : Z)
| LEvent (e : Event)           (* JSON.stringify(event, null, 2) *)
| LErr (e : Error)
| LPut (r : PutObjectOutput).

Inductive Effect :=
| Console (lvl : Level) (args : list LogArg)
| Send (c : Command).

Definition Trace := list Effect.

(** How a block of statements ends: it falls through with a value, it
    executes [return v] ([None] is undefined), or it throws. *)
Inductive Completion (A : Type) :=
| Normal (a : A)
| Return (v : option string)
| Throw (e : Error).
Arguments Normal {A} a.
Arguments Return {A} v.
Arguments Throw {A} e.

Definition M (A : Type) : Type := Trace * Completion A.

Definition ret {A} (a : A) : M A := ([], Normal a).
Definition bind {A B} (m : M A) (f : A -> M B) : M B :=
  match m with
  | (t, Normal a) => let '(t', c) := f a in (t ++ t', c)
  | (t, Return v) => (t, Return v)
  | (t, Throw e) => (t, Throw e)
  end.
Definition return_ {A} (v : option string) : M A := ([], Return v).
Definition throw {A} (e : Error) : M A := ([], Throw e).
Definition emit (e : Effect) : M unit := ([e], Normal tt).
Definition console_log (args : list LogArg) : M unit := emit (Console LevelLog args).
Definition console_warn (args : list LogArg) : M unit := emit (Console LevelWarn args).
Definition console_error (args : list LogArg) : M unit := emit (Console LevelError args).
Definition await {A} (r : Result A) : M A :=
  match r with Ok a => ret a | Fail e => throw e end.
Definition send {A} (c : Command) (r : Result A) : M A :=
  bind (emit (Send c)) (fun _ => await r).
Definition try_catch {A} (m : M A) (h : Error -> M A) : M A :=
  match m with
  | (t, Throw e) => let '(t', c) := h e in (t ++ t', c)
  | _ => m
  end.

Declare Scope js_scope.
Delimit Scope js_scope with js.
Notation "'let*' x ':=' m 'in' k" := (bind m (fun x => k))
  (at level 10, x pattern, m at level 100, k at level 200) : js_scope.
Notation "m ';;' k" := (bind m (fun _ => k))
  (at level 100, k at level 200, right associativity) : js_scope.

(** The result of the async handler: resolved with a value, or rejected. *)
Inductive Outcome :=
| Resolved (v : option string)
| Rejected (e : Error).

Definition run (m : M unit) : Trace * Outcome :=
  match m with
  | (t, Normal _) => (t, Resolved None)
  | (t, Return v) => (t, Resolved v)
  | (t, Throw e) => (t, Rejected e)
  end.

(** ** src/index.mjs *)

(** [for await (const chunk of Body) chunks.push(chunk)], and the reader
    loop of the web stream, which pushes [Buffer.from(value)]. *)
Fixpoint collect (s : Source) (chunks : list Buffer) : Result (list Buffer) :=
  match s with
  | SEnd => Ok chunks
  | SChunk chunk rest => collect rest (chunks ++ [chunk])
  | SError e => Fail e
  end.

Definition Buffer_concat (chunks : list Buffer) : Buffer := concat chunks.

Definition bodyToBuffer (Body : option S3Body) : Result Buffer :=
  match Body with
  | Some b =>
      match read b with
      | Some src =>
          match collect src [] with
          | Ok chunks => Ok (Buffer_concat chunks)
          | Fail e => Fail e
          end
      | None =>
          match getReader b with
          | Some src =>
              match collect src [] with
              | Ok chunks => Ok (Buffer_concat chunks)
              | Fail e => Fail e
              end
          | None =>
              match transformToByteArray b with
              | Some r => r
              | None => Fail (PlainError "Unsupported S3 Body type")
              end
          end
      end
  | None => Fail (PlainError "Unsupported S3 Body type")
  end.

(** [event.Records[0]]: a TypeError when [Records] is missing or empty. *)
Definition first_record (event : Event) : Result S3Record :=
  match Records event with
  | None => Fail (TypeError "Cannot read properties of undefined (reading '0')")
  | Some [] => Fail (TypeError "Cannot read properties of undefined (reading 's3')")
  | Some (r :: _) => Ok r
  end.

(** Line 41. *)
Definition decode_key (raw : string) : Result string :=
  match decodeURIComponent (replace_plus raw) with
  | Some k => Ok k
  | None => Fail (URIError "URI malformed")
  end.

(** [a || b] on values that are a string or undefined. *)
Definition or_else (a : option string) (b : option string) : option string :=
  match a with
  | Some "" | None => b
  | Some _ => a
  end.

(** Line 48. *)
Definition processed_flag (meta : gmap string string) : bool :=
  match or_else (or_else (meta !! "image-processed") (meta !! "Image-Processed"))
                (Some "") with
  | Some v => String.eqb (toLowerCase v) "true"
  | None => false
  end.

(** Lines 63 and 64. *)
Definition ext_of (srcKey : string) : string := replace_dot (ext (parse srcKey)).
Definition imageType_of (srcKey : string) : string := toLowerCase (ext_of srcKey).

(** The array of line 71. *)
Definition supported : list string := ["heic"].

Definition includes (l : list string) (x : string) : bool :=
  existsb (String.eqb x) l.

(** Line 108. *)
Definition outputFiletype (imageType : string) : string :=
  if String.eqb imageType "heic" then "jpg"
  else if String.eqb imageType "jpg" then "jpeg"
  else imageType.

Definition buffer_length (b : Buffer) : Z := Z.of_nat (List.length b).

(** The argument of [PutObjectCommand], lines 110 to 121. *)
Definition put_request (srcBucket srcKey : string) (resizedBuffer : Buffer)
    (imageType outputFiletype : string) : PutObjectInput :=
  {| put_Bucket := srcBucket;
     put_Key := srcKey;
     put_Body := resizedBuffer;
     put_ContentType := "image/" +:+ outputFiletype;
     put_Metadata :=
       <["image-processed" := "true"]>
         (<["processed-width" := "1000"]>
            (<["original-ext" := imageType]>
               (<["output-format" := outputFiletype]> ∅))) |}.

(** The template string of line 124. *)
Definition status_line (srcBucket srcKey outputFiletype : string) : string :=
  "Processed and overwritten " +:+ srcBucket +:+ "/" +:+ srcKey
    +:+ " (format: " +:+ outputFiletype +:+ ")".

Section Handler.

Variable w : World.

Local Open Scope js_scope.

(** Lines 45 to 56. *)
Definition gate (srcBucket srcKey : string) : M unit :=
  try_catch
    (let* head := send (HeadObjectCommand srcBucket srcKey)
                       (s3_head w srcBucket srcKey) in
     let meta := default ∅ (Metadata head) in
     let processed := processed_flag meta in
     if processed then
       console_log [LStr "Object already processed (metadata flag present). Skipping."];;
       return_ None
     else ret tt)
    (fun e =>
       console_warn
         [LStr "HeadObject failed or not permitted; proceeding without metadata check:";
          if String.eqb (error_name e) "" then LErr e else LStr (error_name e)]).

(** Lines 58 to 128. *)
Definition pipeline (srcBucket srcKey : string) : M unit :=
  try_catch
    (let parsed := parse srcKey in
     let dir := dir parsed in
     let baseNameNoExt := name parsed in
     let ext := replace_dot (ext parsed) in
     let imageType := toLowerCase ext in
     console_log [LStr "File type:"; LStr imageType];;
     if negb (includes supported imageType) then
       console_log [LStr ("Unsupported image type: " +:+ imageType)];;
       return_ None
     else
     console_log [LStr "Fetching object from S3:"; LStr srcKey];;
     let* out := send (GetObjectCommand srcBucket srcKey)
                      (s3_get w srcBucket srcKey) in
     console_log [LStr "S3 object fetched"];;
     let* contentBuffer := await (bodyToBuffer (Body out)) in
     console_log [LStr "Buffer size:"; LNum (buffer_length contentBuffer)];;
     let width := 1000 in
     console_log [LStr "Processing image with sharp:"; LStr srcKey];;
     let* workingBuffer :=
       if String.eqb imageType "heic" then
         console_log [LStr "Converting HEIC to JPEG buffer using heic-convert"];;
         let* converted := await (heicConvert w contentBuffer "JPEG" 1) in
         console_log [LStr "HEIC converted to JPEG buffer, size:";
                      LNum (buffer_length converted)];;
         ret converted
       else ret contentBuffer in
     let jpeg := if String.eqb imageType "heic" then Some 100 else None in
     let* resizedBuffer := await (sharp w workingBuffer jpeg width) in
     console_log [LStr "Image processed, output size:";
                  LNum (buffer_length resizedBuffer)];;
     let outputFiletype := outputFiletype imageType in
     console_log [LStr "Overwriting original object with processed image:"; LStr srcKey];;
     let input :=
       put_request srcBucket srcKey resizedBuffer imageType outputFiletype in
     let* putResult := send (PutObjectCommand input) (s3_put w input) in
     console_log [LStr "Object overwritten with processed image:"; LPut putResult];;
     return_ (Some (status_line srcBucket srcKey outputFiletype)))
    (fun error =>
       console_error [LStr "Error processing file:"; LErr error];;
       throw error).

Definition handler_body (event : Event) : M unit :=
  console_log [LStr "Lambda started with event:"; LEvent event];;
  let* record := await (first_record event) in
  let srcBucket := bucket_name record in
  let* srcKey := await (decode_key (object_key record)) in
  console_log [LStr "Processing file:"; LStr srcKey];;
  gate srcBucket srcKey;;
  pipeline srcBucket srcKey.

Definition handler (event : Event) : Trace * Outcome := run (handler_body event).

End Handler.

(** ** Observations on a run *)

Definition commands (t : Trace) : list Command :=
  omap (fun e => match e with Send c => Some c | Console _ _ => None end) t.

Definition is_get (c : Command) : bool :=
  match c with GetObjectCommand _ _ => true | _ => false end.

Definition gets (t : Trace) : list Command := filter is_get (commands t).
Definition puts (t : Trace) : list PutObjectInput :=
  omap (fun c => match c with PutObjectCommand i => Some i | _ => None end) (commands t).

(** The most a trace can change in the bucket: every PutObject it sends
    replaces the object at its bucket and key; no other command writes. *)
Record StoredObject := {
  obj_body : Buffer;
  obj_contentType : string;
  obj_metadata : gmap string string
}.

Definition store_step (st : gmap (string * string) StoredObject) (e : Effect)
    : gmap (string * string) StoredObject :=
  match e with
  | Send (PutObjectCommand i) =>
      <[(put_Bucket i, put_Key i) :=
          {| obj_body := put_Body i; obj_contentType := put_ContentType i;
             obj_metadata := put_Metadata i |}]> st
  | _ => st
  end.

Definition store_after (st : gmap (string * string) StoredObject) (t : Trace)
    : gmap (string * string) StoredObject :=
  foldl store_step st t.

(** The ways the gate (lines 45 to 56) can run. *)
Definition skip_line : Effect :=
  Console LevelLog [LStr "Object already processed (metadata flag present). Skipping."].

Definition warn_line (e : Error) : Effect :=
  Console LevelWarn
    [LStr "HeadObject failed or not permitted; proceeding without metadata check:";
     if String.eqb (error_name e) "" then LErr e else LStr (error_name e)].

Inductive GateRun (w : World) (b k : string) : M unit -> Prop :=
| gate_skip h :
    s3_head w b k = Ok h ->
    processed_flag (default ∅ (Metadata h)) = true ->
    GateRun w b k ([Send (HeadObjectCommand b k); skip_line], Return None)
| gate_pass h :
    s3_head w b k = Ok h ->
    processed_flag (default ∅ (Metadata h)) = false ->
    GateRun w b k ([Send (HeadObjectCommand b k)], Normal tt)
| gate_open e :
    s3_head w b k = Fail e ->
    GateRun w b k ([Send (HeadObjectCommand b k); warn_line e], Normal tt).

(** The object is not flagged as far as the gate can tell: HeadObject fails,
    or answers with metadata that do not carry the flag. *)
Definition gate_passes (w : World) (b k : string) : Prop :=
  forall h, s3_head w b k = Ok h -> processed_flag (default ∅ (Metadata h)) = false.

(** The ways the second try block (lines 58 to 128) can run. *)
Definition type_line (k : string) : Effect :=
  Console LevelLog [LStr "File type:"; LStr (imageType_of k)].

Definition unsupported_line (k : string) : Effect :=
  Console LevelLog [LStr ("Unsupported image type: " +:+ imageType_of k)].

Definition published (b k : string) (resized : Buffer) : PutObjectInput :=
  put_request b k resized (imageType_of k) (outputFiletype (imageType_of k)).

(** Fetch, collection, conversion and resize all succeed, with [resized]
    as the final buffer. *)
Definition stages_ok (w : World) (b k : string) (resized : Buffer) : Prop :=
  exists out buf jpg,
    s3_get w b k = Ok out /\ bodyToBuffer (Body out) = Ok buf /\
    heicConvert w buf "JPEG" 1 = Ok jpg /\ sharp w jpg (Some 100) 1000 = Ok resized.

(** One of the four stages fails with [e], the ones before it having
    succeeded. *)
Inductive StageFails (w : World) (b k : string) (e : Error) : Prop :=
| fetch_fails :
    s3_get w b k = Fail e -> StageFails w b k e
| collect_fails out :
    s3_get w b k = Ok out -> bodyToBuffer (Body out) = Fail e ->
    StageFails w b k e
| convert_fails out buf :
    s3_get w b k = Ok out -> bodyToBuffer (Body out) = Ok buf ->
    heicConvert w buf "JPEG" 1 = Fail e -> StageFails w b k e
| resize_fails out buf jpg :
    s3_get w b k = Ok out -> bodyToBuffer (Body out) = Ok buf ->
    heicConvert w buf "JPEG" 1 = Ok jpg ->
    sharp w jpg (Some 100) 1000 = Fail e -> StageFails w b k e.

Inductive PipelineRun (w : World) (b k : string) : M unit -> Prop :=
| pipe_unsupported :
    includes supported (imageType_of k) = false ->
    PipelineRun w b k ([type_line k; unsupported_line k], Return None)
| pipe_stage_fails t e :
    includes supported (imageType_of k) = true ->
    StageFails w b k e ->
    commands t = [GetObjectCommand b k] ->
    last t = Some (Console LevelError [LStr "Error processing file:"; LErr e]) ->
    PipelineRun w b k (type_line k :: t, Throw e)
| pipe_put_fails t resized e :
    includes supported (imageType_of k) = true ->
    stages_ok w b k resized ->
    s3_put w (published b k resized) = Fail e ->
    commands t = [GetObjectCommand b k; PutObjectCommand (published b k resized)] ->
    PipelineRun w b k (type_line k :: t, Throw e)
| pipe_done t resized r :
    includes supported (imageType_of k) = true ->
    stages_ok w b k resized ->
    s3_put w (published b k resized) = Ok r ->
    commands t = [GetObjectCommand b k; PutObjectCommand (published b k resized)] ->
    PipelineRun w b k
      (type_line k :: t,
       Return (Some (status_line b k (outputFiletype (imageType_of k))))).

(** The ways the handler can run. *)
Definition start_line (event : Event) : Effect :=
  Console LevelLog [LStr "Lambda started with event:"; LEvent event].

Definition processing_line (k : string) : Effect :=
  Console LevelLog [LStr "Processing file:"; LStr k].

Definition outcome_of (c : Completion unit) : Outcome :=
  match c with
  | Normal _ => Resolved None
  | Return v => Resolved v
  | Throw e => Rejected e
  end.

Inductive HandlerRun (w : World) (event : Event) : Trace * Outcome -> Prop :=
| run_no_record e :
    first_record event = Fail e ->
    HandlerRun w event ([start_line event], Rejected e)
| run_bad_key r e :
    first_record event = Ok r ->
    decode_key (object_key r) = Fail e ->
    HandlerRun w event ([start_line event], Rejected e)
| run_skipped r k tg :
    first_record event = Ok r ->
    decode_key (object_key r) = Ok k ->
    GateRun w (bucket_name r) k (tg, Return None) ->
    HandlerRun w event (start_line event :: processing_line k :: tg, Resolved None)
| run_processed r k tg tp c :
    first_record event = Ok r ->
    decode_key (object_key r) = Ok k ->
    GateRun w (bucket_name r) k (tg, Normal tt) ->
    PipelineRun w (bucket_name r) k (tp, c) ->
    HandlerRun w event
      (start_line event :: processing_line k :: tg ++ tp, outcome_of c).

(** [World] with another answer to HeadObject. *)
Definition with_head (w : World) (f : string -> string -> Result HeadObjectOutput)
    : World :=
  {| s3_head := f; s3_get := s3_get w; s3_put := s3_put w;
     heicConvert := heicConvert w; sharp := sharp w |}.

(** ** Sample worlds and events *)

Definition sample_body : S3Body :=
  {| read := Some (SChunk [x01; x02] (SChunk [x03] SEnd));
     getReader := None;
     transformToByteArray := None |}.

(** Every service answers; the object carries [meta]. *)
Definition world_with (meta : option (gmap string string)) : World :=
  {| s3_head := fun _ _ => Ok {| Metadata := meta |};
     s3_get := fun _ _ => Ok {| Body := Some sample_body |};
     s3_put := fun _ => Ok {| ETag := "etag" |};
     heicConvert := fun b _ _ => Ok (b ++ [x0a]);
     sharp := fun b _ _ => Ok (b ++ [x0b]) |}.

Definition world_ok : World := world_with (Some ∅).

Definition access_denied : Error := ServiceError "AccessDenied" "Access Denied".

Definition event_for (bucket key : string) : Event :=
  {| Records := Some [ {| bucket_name := bucket; object_key := key |} ] |}.

(** The object already carries both spellings of the flag, with different
    values. *)
Definition meta_two_flags : gmap string string :=
  {[ "image-processed" := "false"; "Image-Processed" := "true" ]}.

(** HeadObject is refused; everything else answers. *)
Definition world_head_denied : World :=
  with_head world_ok (fun _ _ => Fail access_denied).

(** GetObject is refused. *)
Definition world_get_denied : World :=
  {| s3_head := s3_head world_ok;
     s3_get := fun _ _ => Fail access_denied;
     s3_put := s3_put world_ok;
     heicConvert := heicConvert world_ok;
     sharp := sharp world_ok |}.

(** Re-joining the resolved parts in the words of the specification:
    directory with a separator when it is not empty, base name, extension
    with its dot when it is not empty. *)
Definition rejoin (dir name ext : string) : string :=
  (if String.eqb dir "" then "" else dir +:+ "/")
    +:+ (name +:+ (if String.eqb ext "" then "" else "." +:+ ext)).

Definition rejoin_key (k : string) : string :=
  rejoin (dir (parse k)) (name (parse k)) (ext_of k).

(** A key that ends in a segment without dot: its last segment, the whole
    key or what follows the last '/', is not empty and has no dot. *)
Definition dotless_segment (k : string) : Prop :=
  exists d fname,
    (chars k = fname \/ chars k = d ++ "/"%char :: fname) /\
    fname <> [] /\ ("/"%char ∉ fname) /\ ("."%char ∉ fname).

(** A key without extension, as [path.posix.parse] sees keys: once the
    trailing '/' are set aside, nothing is left, or what is left ends in a
    segment without dot. The empty key, "/", "README", "a.b/README" and
    "folder/" are such keys; "a.heic/" is not. *)
Definition no_extension (k : string) : Prop :=
  exists body slashes,
    chars k = body ++ slashes /\
    Forall (eq "/"%char) slashes /\
    (body = [] \/ dotless_segment (str body)).

(** A key without extension, read on the text of the key alone: no dot
    follows the last '/'. *)
Definition no_dot_after_last_slash (k : string) : Prop :=
  exists d fname,
    (chars k = fname \/ chars k = d ++ "/"%char :: fname) /\
    ("/"%char ∉ fname) /\ ("."%char ∉ fname).


(** No character [c] at the indices from [a] up to [b], [b] excluded. *)
Definition no_char (l : list ascii) (c : ascii) (a b : Z) : Prop :=
  forall j, a <= j < b -> l !! Z.to_nat j <> Some c.

(** Where the last dot of the segment is, as [startDot] records it. *)
Definition dot_found (l : list ascii) (from : Z) (st : Scan) : Prop :=
  (startDot st = -1 /\ no_char l CHAR_DOT from (Z.of_nat (length l))) \/
  (from <= startDot st < Z.of_nat (length l) /\
   l !! Z.to_nat (startDot st) = Some CHAR_DOT /\
   no_char l CHAR_DOT (startDot st + 1) (Z.of_nat (length l))).

(** The state of the scan before index [n - 1], as long as it has not left
    the loop. *)
Definition scan_inv (l : list ascii) (n : nat) (st : Scan) : Prop :=
  startPart st = 0 /\
  ((n = length l /\ st = scan0) \/
   ((n < length l)%nat /\ end_ st = Z.of_nat (length l) /\
    matchedSlash st = false /\
    no_char l CHAR_FORWARD_SLASH (Z.of_nat n) (Z.of_nat (length l)) /\
    dot_found l (Z.of_nat n) st)).

(** The state after the scan of a path that does not end in '/'. *)
Definition scan_post (l : list ascii) (start : Z) (st : Scan) : Prop :=
  end_ st = Z.of_nat (length l) /\
  ((startPart st = 0 /\
    no_char l CHAR_FORWARD_SLASH start (Z.of_nat (length l)) /\
    dot_found l start st) \/
   (start < startPart st < Z.of_nat (length l) /\
    l !! Z.to_nat (startPart st - 1) = Some CHAR_FORWARD_SLASH /\
    no_char l CHAR_FORWARD_SLASH (startPart st) (Z.of_nat (length l)) /\
    dot_found l (startPart st) st)).

(** ** Notions for the further properties *)

(** The chunks a source yields before it ends or fails, and the failure it
    ends with, if any. *)
Fixpoint source_chunks (s : Source) : list Buffer :=
  match s with
  | SEnd => []
  | SChunk chunk rest => chunk :: source_chunks rest
  | SError _ => []
  end.

Fixpoint source_error (s : Source) : option Error :=
  match s with
  | SEnd => None
  | SChunk _ rest => source_error rest
  | SError e => Some e
  end.

(** The stream [bodyToBuffer] reads: the Readable when the body has [read],
    else the web stream when it has [getReader]. *)
Definition body_stream (b : S3Body) : option Source :=
  match read b with
  | Some src => Some src
  | None => getReader b
  end.

(** Bucket and key a command addresses, and its kind. *)
Definition target (c : Command) : string * string :=
  match c with
  | HeadObjectCommand b k => (b, k)
  | GetObjectCommand b k => (b, k)
  | PutObjectCommand i => (put_Bucket i, put_Key i)
  end.

Inductive Kind := KHead | KGet | KPut.

Definition kind (c : Command) : Kind :=
  match c with
  | HeadObjectCommand _ _ => KHead
  | GetObjectCommand _ _ => KGet
  | PutObjectCommand _ => KPut
  end.

(** The console line of the catch block, lines 125 to 127. *)
Definition error_line (e : Error) : Effect :=
  Console LevelError [LStr "Error processing file:"; LErr e].

(** PutObject is refused; everything else answers. *)
Definition world_put_denied : World :=
  {| s3_head := s3_head world_ok;
     s3_get := s3_get world_ok;
     s3_put := fun _ => Fail access_denied;
     heicConvert := heicConvert world_ok;
     sharp := sharp world_ok |}.

(** The characters after a '%' do not begin with two hexadecimal digits. *)
Definition not_hex_pair (rest : list ascii) : bool :=
  match rest with
  | h1 :: h2 :: _ =>
      match hex_val h1, hex_val h2 with
      | Some _, Some _ => false
      | _, _ => true
      end
  | _ => true
  end.

(** What [preDotState] records when the scan has looked at the indices from
    [n] on: it is still 0 exactly when no dot was met, or when the dot is the
    character looked at last. *)
Definition pre_inv (n : Z) (st : Scan) : Prop :=
  (startDot st = -1 \/ n <= startDot st) /\
  (preDotState st = 0 <-> (startDot st = -1 \/ startDot st = n)).

(** A key made of a prefix that is empty or ends in '/', and of a last
    segment without '/'. *)
Definition splits_at (k : string) (pre fname : list ascii) : Prop :=
  chars k = pre ++ fname /\
  (pre = [] \/ last pre = Some CHAR_FORWARD_SLASH) /\
  fname <> [] /\ (CHAR_FORWARD_SLASH ∉ fname).

(** ** Facts about the runs *)

Lemma includes_supported (x : string) :
  includes supported x = true <-> x = "heic".
Proof.
  unfold includes, supported. simpl. rewrite orb_false_r. apply String.eqb_eq.
Qed.

Lemma includes_supported_false (x : string) :
  includes supported x = false <-> x <> "heic".
Proof.
  rewrite <- includes_supported. destruct (includes supported x); split; congruence.
Qed.

Lemma gate_run (w : World) (b k : string) : GateRun w b k (gate w b k).
Proof.
  unfold gate, send, await, bind, emit, ret, throw, try_catch.
  destruct (s3_head w b k) as [h|e] eqn:Hh; simpl.
  - destruct (processed_flag (default ∅ (Metadata h))) eqn:Hp; simpl.
    + eapply gate_skip; eauto.
    + eapply gate_pass; eauto.
  - eapply gate_open; eauto.
Qed.

Lemma pipeline_run (w : World) (b k : string) : PipelineRun w b k (pipeline w b k).
Proof.
  unfold pipeline. fold (ext_of k). fold (imageType_of k).
  destruct (includes supported (imageType_of k)) eqn:Hs; simpl.
  2: { apply pipe_unsupported; assumption. }
  pose proof (proj1 (includes_supported _) Hs) as Ht.
  unfold published. rewrite Ht. simpl.
  unfold send, await, bind, emit, ret, throw, try_catch, console_log, console_error, return_.
  destruct (s3_get w b k) as [out|e] eqn:Hg; simpl.
  2: { rewrite <- Ht. eapply pipe_stage_fails; eauto using fetch_fails. }
  destruct (bodyToBuffer (Body out)) as [buf|e] eqn:Hb; simpl.
  2: { rewrite <- Ht. eapply pipe_stage_fails; eauto using collect_fails. }
  destruct (heicConvert w buf "JPEG" 1) as [jpg|e] eqn:Hc; simpl.
  2: { rewrite <- Ht. eapply pipe_stage_fails; eauto using convert_fails. }
  destruct (sharp w jpg (Some 100) 1000) as [resized|e] eqn:Hr; simpl.
  2: { rewrite <- Ht. eapply pipe_stage_fails; eauto using resize_fails. }
  destruct (s3_put w _) as [r|e] eqn:Hp; simpl.
  - rewrite <- Ht. eapply pipe_done with (resized := resized) (r := r); eauto.
    + exists out, buf, jpg. auto.
    + unfold published. rewrite Ht. exact Hp.
  - rewrite <- Ht. eapply pipe_put_fails with (resized := resized); eauto.
    + exists out, buf, jpg. auto.
    + unfold published. rewrite Ht. exact Hp.
Qed.

Lemma handler_run (w : World) (event : Event) :
  HandlerRun w event (handler w event).
Proof.
  unfold handler, handler_body.
  destruct (first_record event) as [r|e] eqn:Hr;
    cbn [bind await ret throw console_log emit app run].
  2: { eapply run_no_record; eauto. }
  destruct (decode_key (object_key r)) as [k|e] eqn:Hk;
    cbn [bind await ret throw console_log emit app run].
  2: { eapply run_bad_key; eauto. }
  pose proof (gate_run w (bucket_name r) k) as Hg.
  pose proof (pipeline_run w (bucket_name r) k) as Hp.
  destruct (gate w (bucket_name r) k) as [tg cg].
  destruct (pipeline w (bucket_name r) k) as [tp cp].
  inversion Hg; subst.
  - exact (run_skipped w event r k _ Hr Hk Hg).
  - destruct cp; exact (run_processed w event r k _ _ _ Hr Hk Hg Hp).
  - destruct cp; exact (run_processed w event r k _ _ _ Hr Hk Hg Hp).
Qed.

Lemma commands_app (t t' : Trace) : commands (t ++ t') = commands t ++ commands t'.
Proof. unfold commands. apply omap_app. Qed.

Lemma gate_commands w b k t c :
  GateRun w b k (t, c) -> commands t = [HeadObjectCommand b k].
Proof. inversion 1; reflexivity. Qed.

Lemma pipeline_starts w b k t c :
  PipelineRun w b k (t, c) -> head t = Some (type_line k).
Proof. inversion 1; reflexivity. Qed.

Lemma pipeline_with_head w f b k : pipeline (with_head w f) b k = pipeline w b k.
Proof. reflexivity. Qed.

Lemma gate_of_failure w b k e :
  s3_head w b k = Fail e ->
  gate w b k = ([Send (HeadObjectCommand b k); warn_line e], Normal tt).
Proof.
  intros H. unfold gate, send, await, bind, emit, ret, throw, try_catch.
  rewrite H. reflexivity.
Qed.

Lemma gate_of_unflagged w b k h :
  s3_head w b k = Ok h ->
  processed_flag (default ∅ (Metadata h)) = false ->
  gate w b k = ([Send (HeadObjectCommand b k)], Normal tt).
Proof.
  intros H Hp. unfold gate, send, await, bind, emit, ret, throw, try_catch.
  rewrite H. simpl. rewrite Hp. reflexivity.
Qed.

Lemma gate_of_flagged w b k h :
  s3_head w b k = Ok h ->
  processed_flag (default ∅ (Metadata h)) = true ->
  gate w b k = ([Send (HeadObjectCommand b k); skip_line], Return None).
Proof.
  intros H Hp. unfold gate, send, await, bind, emit, ret, throw, try_catch.
  rewrite H. simpl. rewrite Hp. reflexivity.
Qed.

Lemma or_else_keeps (v : string) (b : option string) :
  v <> "" -> or_else (Some v) b = Some v.
Proof. destruct v; [congruence | reflexivity]. Qed.

Lemma or_else_undefined (b : option string) : or_else None b = b.
Proof. reflexivity. Qed.

Lemma or_else_empty (b : option string) : or_else (Some "") b = b.
Proof. reflexivity. Qed.

Lemma handler_of_key w event r k :
  first_record event = Ok r ->
  decode_key (object_key r) = Ok k ->
  handler w event =
    run (bind (start_line event :: [processing_line k], Normal tt)
           (fun _ => bind (gate w (bucket_name r) k)
                       (fun _ => pipeline w (bucket_name r) k))).
Proof.
  intros Hr Hk. unfold handler, handler_body. rewrite Hr.
  cbn [bind await ret throw console_log emit app run]. rewrite Hk.
  cbn [bind await ret throw console_log emit app run].
  destruct (gate w (bucket_name r) k) as [tg [[]|v|e]];
    destruct (pipeline w (bucket_name r) k) as [tp [[]|v'|e']]; reflexivity.
Qed.

Lemma stages_ok_excludes_failure w b k resized e :
  stages_ok w b k resized -> StageFails w b k e -> False.
Proof.
  intros (out & buf & jpg & Hg & Hb & Hc & Hs) Hf.
  inversion Hf; congruence.
Qed.

Lemma stages_ok_unique w b k r1 r2 :
  stages_ok w b k r1 -> stages_ok w b k r2 -> r1 = r2.
Proof.
  intros (o1 & b1 & j1 & Hg1 & Hb1 & Hc1 & Hs1) (o2 & b2 & j2 & Hg2 & Hb2 & Hc2 & Hs2).
  congruence.
Qed.

Lemma puts_of_commands (t : Trace) :
  puts t = omap (fun c => match c with PutObjectCommand i => Some i | _ => None end)
             (commands t).
Proof. reflexivity. Qed.

Lemma store_after_no_put (t : Trace) (st : gmap (string * string) StoredObject) :
  puts t = [] -> store_after st t = st.
Proof.
  unfold store_after, puts, commands. revert st.
  induction t as [|e t IH]; intros st H; [reflexivity|].
  destruct e as [lvl args | [b k | b k | i]]; simpl in *; try discriminate; auto.
Qed.

(** The commands of a run: none, HeadObject alone, HeadObject and GetObject,
    or these two and one PutObject that follows four successful stages. *)
Lemma handler_commands (w : World) (event : Event) :
  commands (handler w event).1 = [] \/
  exists r k,
    first_record event = Ok r /\ decode_key (object_key r) = Ok k /\
    (commands (handler w event).1 = [HeadObjectCommand (bucket_name r) k] \/
     (imageType_of k = "heic" /\
      (commands (handler w event).1 =
         [HeadObjectCommand (bucket_name r) k; GetObjectCommand (bucket_name r) k] \/
       exists resized,
         stages_ok w (bucket_name r) k resized /\
         commands (handler w event).1 =
           [HeadObjectCommand (bucket_name r) k; GetObjectCommand (bucket_name r) k;
            PutObjectCommand (published (bucket_name r) k resized)]))).
Proof.
  pose proof (handler_run w event) as H.
  destruct (handler w event) as [t o]. cbn [fst].
  inversion H; subst.
  - left. reflexivity.
  - left. reflexivity.
  - right. exists r, k. repeat (split; [assumption|]). left.
    match goal with Hg : GateRun _ _ _ _ |- _ => apply gate_commands in Hg as Hc end.
    unfold start_line, processing_line. cbn [commands omap]. exact Hc.
  - right. exists r, k. repeat (split; [assumption|]).
    match goal with Hg : GateRun _ _ _ _ |- _ => apply gate_commands in Hg as Hc end.
    assert (Ht : commands (start_line event :: processing_line k :: tg ++ tp)
                 = HeadObjectCommand (bucket_name r) k :: commands tp).
    { change (commands (start_line event :: processing_line k :: tg ++ tp))
        with (commands (tg ++ tp)).
      rewrite commands_app, Hc. reflexivity. }
    rewrite Ht.
    match goal with Hp : PipelineRun _ _ _ _ |- _ => inversion Hp; subst end.
    + left. reflexivity.
    + right. split; [apply includes_supported; assumption|]. left.
      change (commands (type_line k :: t)) with (commands t).
      congruence.
    + right. split; [apply includes_supported; assumption|]. right.
      exists resized. split; [assumption|].
      change (commands (type_line k :: t)) with (commands t).
      congruence.
    + right. split; [apply includes_supported; assumption|]. right.
      exists resized. split; [assumption|].
      change (commands (type_line k :: t)) with (commands t).
      congruence.
Qed.

(** Every PutObject of a run is the only one, and comes after the four
    stages have succeeded on a key of type 'heic'. *)
Lemma handler_puts (w : World) (event : Event) (i : PutObjectInput) :
  i ∈ puts (handler w event).1 ->
  exists r k resized,
    first_record event = Ok r /\ decode_key (object_key r) = Ok k /\
    imageType_of k = "heic" /\
    stages_ok w (bucket_name r) k resized /\
    i = published (bucket_name r) k resized /\
    puts (handler w event).1 = [i].
Proof.
  rewrite puts_of_commands.
  destruct (handler_commands w event)
    as [H | (r & k & Hr & Hk & [H | (Ht & [H | (resized & Hs & H)])])];
    rewrite H; simpl; intros Hi.
  - inversion Hi.
  - inversion Hi.
  - inversion Hi.
  - apply list_elem_of_singleton in Hi. subst i.
    exists r, k, resized. repeat (split; [assumption || reflexivity|]).
    reflexivity.
Qed.

Lemma stage_failure_unique w b k e1 e2 :
  StageFails w b k e1 -> StageFails w b k e2 -> e1 = e2.
Proof. intros H1 H2. inversion H1; inversion H2; congruence. Qed.

Lemma gate_of_passes w b k :
  gate_passes w b k ->
  exists tg, gate w b k = (tg, Normal tt) /\ commands tg = [HeadObjectCommand b k].
Proof.
  intros Hp. destruct (s3_head w b k) as [h|e] eqn:Hh.
  - eexists. split; [apply (gate_of_unflagged w b k h Hh (Hp h Hh))|reflexivity].
  - eexists. split; [apply (gate_of_failure w b k e Hh)|reflexivity].
Qed.

Lemma handler_unsupported w event r k :
  first_record event = Ok r ->
  decode_key (object_key r) = Ok k ->
  gate_passes w (bucket_name r) k ->
  imageType_of k <> "heic" ->
  (handler w event).2 = Resolved None /\
  last (handler w event).1 = Some (unsupported_line k).
Proof.
  intros Hr Hk Hg Ht.
  rewrite (handler_of_key w event r k Hr Hk).
  destruct (gate_of_passes w _ k Hg) as (tg & -> & _).
  pose proof (pipeline_run w (bucket_name r) k) as Hp.
  destruct (pipeline w (bucket_name r) k) as [tp cp].
  inversion Hp; subst;
    try (match goal with H : includes supported _ = true |- _ =>
           apply includes_supported in H; contradiction end).
  cbn [bind run app fst snd]. split; [reflexivity|].
  replace (start_line event :: processing_line k :: tg ++ [type_line k; unsupported_line k])
    with ((start_line event :: processing_line k :: tg ++ [type_line k])
            ++ [unsupported_line k])
    by (simpl; rewrite <- app_assoc; reflexivity).
  apply last_snoc.
Qed.

Lemma handler_stage_failure w event r k e :
  first_record event = Ok r ->
  decode_key (object_key r) = Ok k ->
  gate_passes w (bucket_name r) k ->
  imageType_of k = "heic" ->
  StageFails w (bucket_name r) k e ->
  (handler w event).2 = Rejected e.
Proof.
  intros Hr Hk Hg Ht Hf.
  rewrite (handler_of_key w event r k Hr Hk).
  destruct (gate_of_passes w _ k Hg) as (tg & -> & _).
  pose proof (pipeline_run w (bucket_name r) k) as Hp.
  destruct (pipeline w (bucket_name r) k) as [tp cp].
  inversion Hp; subst; cbn [bind run app fst snd].
  - match goal with H : includes supported _ = false |- _ =>
      apply includes_supported_false in H; contradiction end.
  - f_equal. eapply stage_failure_unique; eauto.
  - exfalso. eapply stages_ok_excludes_failure; eauto.
  - exfalso. eapply stages_ok_excludes_failure; eauto.
Qed.

Lemma handler_transform w event r k resized :
  first_record event = Ok r ->
  decode_key (object_key r) = Ok k ->
  gate_passes w (bucket_name r) k ->
  imageType_of k = "heic" ->
  stages_ok w (bucket_name r) k resized ->
  commands (handler w event).1 =
    [HeadObjectCommand (bucket_name r) k; GetObjectCommand (bucket_name r) k;
     PutObjectCommand (published (bucket_name r) k resized)] /\
  (forall res, s3_put w (published (bucket_name r) k resized) = Ok res ->
     (handler w event).2 =
       Resolved (Some (status_line (bucket_name r) k (outputFiletype (imageType_of k))))) /\
  (forall e, s3_put w (published (bucket_name r) k resized) = Fail e ->
     (handler w event).2 = Rejected e).
Proof.
  intros Hr Hk Hg Ht Hs.
  rewrite (handler_of_key w event r k Hr Hk).
  destruct (gate_of_passes w _ k Hg) as (tg & -> & Hc).
  pose proof (pipeline_run w (bucket_name r) k) as Hp.
  destruct (pipeline w (bucket_name r) k) as [tp cp].
  inversion Hp; subst; cbn [bind run app fst snd].
  - match goal with H : includes supported _ = false |- _ =>
      apply includes_supported_false in H; contradiction end.
  - exfalso. eapply stages_ok_excludes_failure; eauto.
  - match goal with H : stages_ok _ _ _ ?x |- _ =>
      pose proof (stages_ok_unique _ _ _ _ _ Hs H); subst x end.
    split; [|split; [congruence|congruence]].
    change (commands (start_line event :: processing_line k :: tg ++ type_line k :: t))
      with (commands (tg ++ type_line k :: t)).
    rewrite commands_app, Hc. change (commands (type_line k :: t)) with (commands t).
    match goal with H : commands t = _ |- _ => rewrite H end. reflexivity.
  - match goal with H : stages_ok _ _ _ ?x |- _ =>
      pose proof (stages_ok_unique _ _ _ _ _ Hs H); subst x end.
    split; [|split; [congruence|congruence]].
    change (commands (start_line event :: processing_line k :: tg ++ type_line k :: t))
      with (commands (tg ++ type_line k :: t)).
    rewrite commands_app, Hc. change (commands (type_line k :: t)) with (commands t).
    match goal with H : commands t = _ |- _ => rewrite H end. reflexivity.
Qed.

(** ** Facts about [path.posix.parse] *)

Lemma chars_str (l : list ascii) : chars (str l) = l.
Proof. apply list_ascii_of_string_of_list_ascii. Qed.

Lemma str_chars (s : string) : str (chars s) = s.
Proof. apply string_of_list_ascii_of_string. Qed.

Lemma str_app (l1 l2 : list ascii) : str (l1 ++ l2) = str l1 +:+ str l2.
Proof.
  unfold str. induction l1 as [|c l1 IH]; simpl; [reflexivity|].
  rewrite IH. reflexivity.
Qed.

Lemma is_code_true (p : string) (i : Z) (c : ascii) :
  0 <= i -> is_code (charCodeAt p i) c = true <-> chars p !! Z.to_nat i = Some c.
Proof.
  intros Hi. unfold is_code, charCodeAt.
  destruct (Z.ltb_spec i 0) as [?|_]; [lia|].
  destruct (chars p !! Z.to_nat i) as [a|]; [|split; discriminate].
  rewrite Ascii.eqb_eq. split; congruence.
Qed.

Lemma is_code_false (p : string) (i : Z) (c : ascii) :
  0 <= i -> is_code (charCodeAt p i) c = false <-> chars p !! Z.to_nat i <> Some c.
Proof.
  intros Hi. rewrite <- (is_code_true p i c Hi).
  destruct (is_code (charCodeAt p i) c); split; congruence.
Qed.

Lemma no_char_step l c (m : nat) b :
  l !! m <> Some c -> no_char l c (Z.of_nat (S m)) b -> no_char l c (Z.of_nat m) b.
Proof.
  intros Hc H j Hj. destruct (Z.eq_dec j (Z.of_nat m)) as [->|].
  - rewrite Nat2Z.id. exact Hc.
  - apply H. lia.
Qed.

Lemma no_char_empty l c a b : b <= a -> no_char l c a b.
Proof. intros Hb j Hj. lia. Qed.

Section Scan.

Variable p : string.
Variable start : Z.
Hypothesis start_range : 0 <= start < strlen p.
Hypothesis no_trailing_slash :
  chars p !! Z.to_nat (strlen p - 1) <> Some CHAR_FORWARD_SLASH.

(** One character that is not a separator keeps the invariant. *)
Lemma scan_char_inv (m : nat) (st : Scan) :
  (m < length (chars p))%nat ->
  chars p !! m <> Some CHAR_FORWARD_SLASH ->
  scan_inv (chars p) (S m) st ->
  scan_inv (chars p) m (scan_char p (Z.of_nat m) st).
Proof.
  intros Hm Hns [Hsp Hst]. unfold scan_char, scan_inv, dot_found.
  assert (Hm0 : 0 <= Z.of_nat m) by lia.
  replace (Z.of_nat m + 1) with (Z.of_nat (S m)) by lia.
  destruct Hst as [[Hn ->] | (Hn & Hend & Hms & Hnc & Hdot)].
  - (* the first character looked at *)
    unfold scan0. cbn [end_ startDot startPart matchedSlash preDotState].
    rewrite Z.eqb_refl. cbn [end_ startDot startPart matchedSlash preDotState negb].
    rewrite Z.eqb_refl. cbn [negb].
    assert (Hvac : forall c, no_char (chars p) c (Z.of_nat (S m))
                               (Z.of_nat (length (chars p))))
      by (intros c; apply no_char_empty; lia).
    destruct (is_code (charCodeAt p (Z.of_nat m)) CHAR_DOT) eqn:Hd;
      (split; [reflexivity|]); right;
      (split; [exact Hm|]); cbn [end_ matchedSlash startDot];
      (split; [lia|]); (split; [reflexivity|]);
      (split; [apply no_char_step; auto|]).
    + apply is_code_true in Hd; [|exact Hm0]. rewrite Nat2Z.id in Hd.
      right. cbn [startDot]. rewrite Nat2Z.id. split; [lia|]. split; [exact Hd|].
      replace (Z.of_nat m + 1) with (Z.of_nat (S m)) by lia. apply Hvac.
    + apply is_code_false in Hd; [|exact Hm0]. rewrite Nat2Z.id in Hd.
      left. split; [reflexivity|]. apply no_char_step; auto.
  - (* a later character *)
    assert (Hend' : (end_ st =? -1) = false) by (apply Z.eqb_neq; lia).
    rewrite Hend'.
    assert (Hnc' : no_char (chars p) CHAR_FORWARD_SLASH (Z.of_nat m)
                     (Z.of_nat (length (chars p))))
      by (apply no_char_step; auto).
    destruct (is_code (charCodeAt p (Z.of_nat m)) CHAR_DOT) eqn:Hd.
    + apply is_code_true in Hd; [|exact Hm0]. rewrite Nat2Z.id in Hd.
      destruct Hdot as [[Hsd Hnd] | (Hsd & Hat & Hnd)].
      * rewrite Hsd, Z.eqb_refl. split; [exact Hsp|]. right.
        cbn [end_ matchedSlash startDot].
        repeat (split; [assumption || lia|]).
        right. cbn [startDot]. rewrite Nat2Z.id. split; [lia|]. split; [exact Hd|].
        replace (Z.of_nat m + 1) with (Z.of_nat (S m)) by lia. exact Hnd.
      * assert (Hne : (startDot st =? -1) = false) by (apply Z.eqb_neq; lia).
        rewrite Hne.
        destruct (negb (preDotState st =? 1)); (split; [exact Hsp|]); right;
          cbn [end_ matchedSlash startDot];
          repeat (split; [assumption || lia|]);
          right; (split; [lia|]); split; assumption.
    + apply is_code_false in Hd; [|exact Hm0]. rewrite Nat2Z.id in Hd.
      destruct Hdot as [[Hsd Hnd] | (Hsd & Hat & Hnd)].
      * rewrite Hsd, Z.eqb_refl. cbn [negb]. split; [exact Hsp|]. right.
        repeat (split; [assumption || lia|]).
        left. split; [exact Hsd|]. apply no_char_step; auto.
      * assert (Hne : (startDot st =? -1) = false) by (apply Z.eqb_neq; lia).
        rewrite Hne. cbn [negb]. split; [exact Hsp|]. right.
        cbn [end_ matchedSlash startDot].
        repeat (split; [assumption || lia|]).
        right. (split; [lia|]); split; assumption.
Qed.

Lemma scan_spec (n : nat) (st : Scan) :
  start <= Z.of_nat n ->
  (n <= length (chars p))%nat ->
  scan_inv (chars p) n st ->
  scan_post (chars p) start (scan p start n st).
Proof.
  unfold strlen in *.
  revert st. induction n as [|m IH]; intros st Hstart Hlen Hinv.
  - (* every index has been looked at *)
    simpl. destruct Hinv as [Hsp [[Hn _] | (Hn & Hend & Hms & Hnc & Hdot)]]; [lia|].
    split; [exact Hend|]. left. split; [exact Hsp|].
    assert (start = 0) by lia. subst start. auto.
  - cbn [scan].
    destruct (Z.ltb_spec (Z.of_nat m) start) as [Hlt|Hge].
    + (* i < start *)
      assert (Hs : start = Z.of_nat (S m)) by lia.
      destruct Hinv as [Hsp [[Hn _] | (Hn & Hend & Hms & Hnc & Hdot)]]; [lia|].
      split; [exact Hend|]. left. split; [exact Hsp|]. rewrite Hs. auto.
    + assert (Hm0 : 0 <= Z.of_nat m) by lia.
      destruct (is_code (charCodeAt p (Z.of_nat m)) CHAR_FORWARD_SLASH) eqn:Hc.
      * apply is_code_true in Hc; [|exact Hm0].
        destruct Hinv as [Hsp [[Hn ->] | (Hn & Hend & Hms & Hnc & Hdot)]].
        -- exfalso. apply no_trailing_slash.
           replace (Z.of_nat (length (chars p)) - 1) with (Z.of_nat m) by lia.
           exact Hc.
        -- rewrite Hms. cbn [negb]. split; [exact Hend|]. right.
           cbn [startPart startDot].
           replace (Z.of_nat m + 1 - 1) with (Z.of_nat m) by lia.
           split; [lia|]. split; [exact Hc|].
           replace (Z.of_nat m + 1) with (Z.of_nat (S m)) by lia.
           split; [exact Hnc|].
           destruct Hdot as [[H1 H2] | (H1 & H2 & H3)]; [left|right]; auto.
      * apply is_code_false in Hc; [|exact Hm0]. rewrite Nat2Z.id in Hc.
        apply IH; [lia | lia |].
        apply scan_char_inv; [lia | exact Hc | exact Hinv].
Qed.

Lemma scan_all : scan_post (chars p) start (scan p start (Z.to_nat (strlen p)) scan0).
Proof.
  unfold strlen in *. rewrite Nat2Z.id.
  apply scan_spec; [lia | lia |].
  split; [reflexivity|]. left. split; reflexivity.
Qed.

End Scan.

Lemma start_in_range (k : string) :
  strlen k <> 0 ->
  chars k !! Z.to_nat (strlen k - 1) <> Some CHAR_FORWARD_SLASH ->
  0 <= (if is_code (charCodeAt k 0) CHAR_FORWARD_SLASH then 1 else 0) < strlen k.
Proof.
  intros Hlen Hlast. unfold strlen in *.
  destruct (is_code (charCodeAt k 0) CHAR_FORWARD_SLASH) eqn:Habs; [|lia].
  apply is_code_true in Habs; [|lia]. simpl in Habs.
  destruct (Z.eq_dec (Z.of_nat (length (chars k))) 1) as [H1|H1]; [|lia].
  exfalso. apply Hlast. rewrite H1. exact Habs.
Qed.

(** The segment after a prefix that is empty or ends in '/'. *)
Lemma segment_lookup (pre fname : list ascii) (c : ascii) (j : Z) :
  c ∉ fname ->
  Z.of_nat (length pre) <= j ->
  (pre ++ fname) !! Z.to_nat j <> Some c.
Proof.
  intros Hc Hj Hl. apply Hc.
  rewrite lookup_app_r in Hl by lia.
  eapply list_elem_of_lookup_2. exact Hl.
Qed.

Lemma dotless_segment_no_dot (k : string) : dotless_segment k -> ext (parse k) = "".
Proof.
  intros (d & fname & Hk & Hne & Hns & Hnd).
  assert (Hpre : exists pre,
             chars k = pre ++ fname /\
             (pre = [] \/
              pre !! Z.to_nat (Z.of_nat (length pre) - 1) = Some CHAR_FORWARD_SLASH /\
              (0 < length pre)%nat)).
  { destruct Hk as [Hk|Hk].
    - exists []. split; [exact Hk|]. left. reflexivity.
    - exists (d ++ ["/"%char]). split; [rewrite <- app_assoc; exact Hk|]. right.
      rewrite length_app. simpl. split; [|lia].
      replace (Z.to_nat (Z.of_nat (length d + 1) - 1)) with (length d + 0)%nat by lia.
      rewrite lookup_app_r by lia.
      replace (length d + 0 - length d)%nat with 0%nat by lia. reflexivity. }
  clear Hk. destruct Hpre as (pre & Hk & Hpre).
  assert (Hlen : strlen k = Z.of_nat (length pre) + Z.of_nat (length fname)).
  { unfold strlen. rewrite Hk, length_app. lia. }
  assert (Hpos : (0 < length fname)%nat) by (destruct fname; [congruence|simpl; lia]).
  assert (Hlen0 : strlen k <> 0) by lia.
  assert (Hlast : chars k !! Z.to_nat (strlen k - 1) <> Some CHAR_FORWARD_SLASH).
  { rewrite Hk. apply segment_lookup; [exact Hns|lia]. }
  pose proof (start_in_range k Hlen0 Hlast) as Hrange.
  pose proof (scan_all k _ Hrange Hlast) as Hpost.
  unfold parse. rewrite (proj2 (Z.eqb_neq _ _) Hlen0).
  set (start := if is_code (charCodeAt k 0) CHAR_FORWARD_SLASH then 1 else 0) in *.
  set (st := scan k start (Z.to_nat (strlen k)) scan0) in *.
  assert (Hsd : startDot st = -1).
  { destruct Hpost as [Hend Hpost]. unfold strlen in *.
    assert (Hseg : forall j c, c ∉ fname -> Z.of_nat (length pre) <= j ->
                     chars k !! Z.to_nat j <> Some c).
    { intros j c Hc Hj. rewrite Hk. apply segment_lookup; assumption. }
    assert (Hfrom : forall from,
               dot_found (chars k) from st -> Z.of_nat (length pre) <= from ->
               startDot st = -1).
    { intros from [[H _] | (H1 & H2 & _)] Hfrom; [exact H|].
      exfalso. apply (Hseg (startDot st) CHAR_DOT Hnd); [lia | exact H2]. }
    destruct Hpost as [(Hsp & Hnc & Hdot) | (Hsp & Hat & Hnc & Hdot)].
    - apply (Hfrom start Hdot).
      destruct Hpre as [-> | [Hsl Hp]]; [simpl; lia|].
      destruct (Z.le_gt_cases (Z.of_nat (length pre)) start) as [?|Hgt]; [assumption|].
      exfalso. apply (Hnc (Z.of_nat (length pre) - 1)); [lia|].
      rewrite Hk, lookup_app_l by lia. exact Hsl.
    - apply (Hfrom (startPart st) Hdot).
      destruct Hpre as [-> | [Hsl Hp]]; [simpl; lia|].
      destruct (Z.le_gt_cases (Z.of_nat (length pre)) (startPart st)) as [?|Hgt];
        [assumption|].
      exfalso. apply (Hnc (Z.of_nat (length pre) - 1)); [lia|].
      rewrite Hk, lookup_app_l by lia. exact Hsl. }
  destruct Hpost as [Hend _]. unfold segment.
  assert (He : (end_ st =? -1) = false) by (apply Z.eqb_neq; unfold strlen in *; lia).
  rewrite He, Hsd, Z.eqb_refl. reflexivity.
Qed.

(** Trailing separators: the scan passes over them, and the parts of the
    key are those of the key without them. *)
Lemma scan_char_agree (k k' : string) (i : Z) (st : Scan) :
  charCodeAt k i = charCodeAt k' i -> scan_char k i st = scan_char k' i st.
Proof. intros H. unfold scan_char. rewrite H. reflexivity. Qed.

Lemma charCodeAt_nat (k : string) (m : nat) :
  charCodeAt k (Z.of_nat m) = chars k !! m.
Proof.
  unfold charCodeAt. destruct (Z.ltb_spec (Z.of_nat m) 0) as [?|_]; [lia|].
  rewrite Nat2Z.id. reflexivity.
Qed.

Lemma scan_agree (k k' : string) (start : Z) (n : nat) (st : Scan) :
  (forall i, (i < n)%nat -> chars k !! i = chars k' !! i) ->
  scan k start n st = scan k' start n st.
Proof.
  revert st. induction n as [|m IH]; intros st Hsame; [reflexivity|].
  assert (Hm : charCodeAt k (Z.of_nat m) = charCodeAt k' (Z.of_nat m))
    by (rewrite !charCodeAt_nat; apply Hsame; lia).
  cbn [scan]. rewrite Hm, (scan_char_agree k k' _ st Hm).
  rewrite !IH by (intros i Hi; apply Hsame; lia). reflexivity.
Qed.

Lemma scan_below (k : string) (start : Z) (n : nat) (st : Scan) :
  Z.of_nat n <= start -> scan k start n st = st.
Proof.
  intros Hn. destruct n as [|m]; [reflexivity|]. cbn [scan].
  destruct (Z.ltb_spec (Z.of_nat m) start) as [_|?]; [reflexivity|lia].
Qed.

Lemma scan_skip_slashes (k : string) (start : Z) (b m : nat) (st : Scan) :
  matchedSlash st = true ->
  (forall i, (b <= i < b + m)%nat -> chars k !! i = Some CHAR_FORWARD_SLASH) ->
  scan k start (b + m) st = scan k start b st.
Proof.
  intros Hms. induction m as [|m IH]; intros Hall.
  - rewrite Nat.add_0_r. reflexivity.
  - rewrite Nat.add_succ_r. cbn [scan].
    destruct (Z.ltb_spec (Z.of_nat (b + m)) start) as [Hlt|Hge].
    + symmetry. apply scan_below. lia.
    + assert (Hc : is_code (charCodeAt k (Z.of_nat (b + m))) CHAR_FORWARD_SLASH = true).
      { apply is_code_true; [lia|]. rewrite Nat2Z.id. apply Hall. lia. }
      rewrite Hc, Hms. cbn [negb]. apply IH. intros i Hi. apply Hall. lia.
Qed.

Lemma slice_prefix (k k' : string) (body rest : list ascii) (a b : Z) :
  chars k = body ++ rest -> chars k' = body ->
  b <= Z.of_nat (length body) ->
  slice k a b = slice k' a b.
Proof.
  intros Hk Hk' Hb. unfold slice. rewrite Hk, Hk'. f_equal.
  destruct (Nat.le_gt_cases (Z.to_nat a) (length body)) as [Ha|Ha].
  - rewrite drop_app_le by exact Ha.
    apply take_app_le. rewrite length_drop. lia.
  - replace (Z.to_nat b - Z.to_nat a)%nat with 0%nat by lia. reflexivity.
Qed.

Lemma parse_trailing_slashes (k : string) (body slashes : list ascii) :
  chars k = body ++ slashes ->
  Forall (eq CHAR_FORWARD_SLASH) slashes ->
  body <> [] ->
  last body <> Some CHAR_FORWARD_SLASH ->
  parse k = parse (str body).
Proof.
  intros Hk Hsl Hne Hlast.
  pose proof (chars_str body) as Hk'.
  assert (Hpos : (0 < length body)%nat) by (destruct body; [congruence|simpl; lia]).
  assert (Hlen : strlen k = Z.of_nat (length body + length slashes))
    by (unfold strlen; rewrite Hk, length_app; reflexivity).
  assert (Hlen' : strlen (str body) = Z.of_nat (length body))
    by (unfold strlen; rewrite Hk'; reflexivity).
  assert (Hlen0 : strlen k <> 0) by lia.
  assert (Hlen0' : strlen (str body) <> 0) by lia.
  assert (Hlast' : chars (str body) !! Z.to_nat (strlen (str body) - 1)
                   <> Some CHAR_FORWARD_SLASH).
  { rewrite Hlen', Hk'.
    replace (Z.to_nat (Z.of_nat (length body) - 1)) with (pred (length body)) by lia.
    rewrite <- last_lookup. exact Hlast. }
  assert (Hfirst : charCodeAt k 0 = charCodeAt (str body) 0).
  { change 0 with (Z.of_nat 0). rewrite !charCodeAt_nat, Hk, Hk'.
    apply lookup_app_l. exact Hpos. }
  pose proof (start_in_range (str body) Hlen0' Hlast') as Hrange.
  pose proof (scan_all (str body) _ Hrange Hlast') as Hpost.
  unfold parse.
  rewrite (proj2 (Z.eqb_neq _ _) Hlen0), (proj2 (Z.eqb_neq _ _) Hlen0'), Hfirst.
  set (isAbsolute := is_code (charCodeAt (str body) 0) CHAR_FORWARD_SLASH) in *.
  set (start := if isAbsolute then 1 else 0) in *.
  assert (Hscan : scan k start (Z.to_nat (strlen k)) scan0
                  = scan (str body) start (Z.to_nat (strlen (str body))) scan0).
  { rewrite Hlen, Hlen', !Nat2Z.id.
    rewrite scan_skip_slashes.
    - apply scan_agree. intros i Hi. rewrite Hk, Hk'. apply lookup_app_l. exact Hi.
    - reflexivity.
    - intros i Hi. rewrite Hk, lookup_app_r by lia.
      destruct (lookup_lt_is_Some_2 slashes (i - length body)) as [c Hc]; [lia|].
      rewrite Hc. f_equal. symmetry.
      exact (proj1 (Forall_lookup _ _) Hsl _ _ Hc). }
  rewrite Hscan.
  set (st := scan (str body) start (Z.to_nat (strlen (str body))) scan0) in *.
  destruct Hpost as [Hend Hpost]. rewrite Hk' in Hend, Hpost.
  assert (Hsd : startDot st <= Z.of_nat (length body)).
  { destruct Hpost as [(_ & _ & Hdot) | (_ & _ & _ & Hdot)];
      destruct Hdot as [[H _] | [H _]]; lia. }
  assert (Hsp : startPart st - 1 <= Z.of_nat (length body))
    by (destruct Hpost as [(H & _) | (H & _)]; lia).
  assert (Hseg : forall s, segment k st s = segment (str body) st s).
  { intros s. unfold segment.
    rewrite !(slice_prefix k (str body) body slashes _ _ Hk Hk') by lia.
    reflexivity. }
  rewrite Hseg.
  rewrite (slice_prefix k (str body) body slashes _ _ Hk Hk' Hsp).
  reflexivity.
Qed.

Lemma no_extension_no_dot (k : string) : no_extension k -> ext (parse k) = "".
Proof.
  intros (body & slashes & Hk & Hsl & [-> | Hseg]).
  - (* nothing but separators *)
    cbn [app] in Hk. unfold parse.
    destruct (Z.eqb_spec (strlen k) 0) as [_|Hlen0]; [reflexivity|].
    set (start := if is_code (charCodeAt k 0) CHAR_FORWARD_SLASH then 1 else 0).
    assert (Hscan : scan k start (Z.to_nat (strlen k)) scan0 = scan0).
    { unfold strlen. rewrite Nat2Z.id.
      pose proof (scan_skip_slashes k start 0 (length (chars k)) scan0 eq_refl) as H0.
      cbn [Nat.add] in H0. rewrite H0.
      - reflexivity.
      - intros i Hi. rewrite Hk.
        destruct (lookup_lt_is_Some_2 slashes i) as [c Hc]; [rewrite <- Hk; lia|].
        rewrite Hc. f_equal. symmetry.
        exact (proj1 (Forall_lookup _ _) Hsl _ _ Hc). }
    rewrite Hscan. reflexivity.
  - (* a last segment without dot, then separators *)
    assert (Hbody : body <> [] /\ last body <> Some CHAR_FORWARD_SLASH).
    { destruct Hseg as (d & fname & Hb & Hne & Hns & _).
      rewrite chars_str in Hb.
      assert (Hl : last body = last fname).
      { destruct Hb as [->| ->]; [reflexivity|].
        rewrite last_app, last_cons.
        destruct (last fname) eqn:Hf; [reflexivity|].
        apply last_None in Hf. contradiction. }
      split.
      - destruct Hb as [->| ->]; [exact Hne|]. destruct d; discriminate.
      - rewrite Hl. intros Hf. apply Hns.
        apply last_Some in Hf as [l' ->]. apply elem_of_app. right. left. }
    destruct Hbody as [Hne Hlast].
    rewrite (parse_trailing_slashes k body slashes Hk Hsl Hne Hlast).
    apply dotless_segment_no_dot. exact Hseg.
Qed.

Lemma str_eqb_empty (l : list ascii) :
  String.eqb (str l) "" = match l with [] => true | _ => false end.
Proof. destruct l; reflexivity. Qed.

Lemma replace_dot_leading (l : list ascii) : replace_dot (str (CHAR_DOT :: l)) = str l.
Proof. unfold replace_dot. rewrite chars_str. reflexivity. Qed.

(** Base name and extension of the last segment, put together again. *)
Lemma segment_rejoin (k : string) (st : Scan) (s0 : Z) (b n e : string) :
  end_ st = strlen k ->
  0 <= s0 < strlen k ->
  dot_found (chars k) s0 st ->
  chars k !! Z.to_nat (strlen k - 1) <> Some CHAR_DOT ->
  segment k st s0 = (b, n, e) ->
  n +:+ (if String.eqb (replace_dot e) "" then "" else "." +:+ replace_dot e)
    = str (drop (Z.to_nat s0) (chars k)).
Proof.
  intros Hend Hs0 Hdot Hlast. unfold segment.
  assert (He : (end_ st =? -1) = false) by (apply Z.eqb_neq; lia).
  rewrite He, Hend. unfold strlen in *.
  assert (Hwhole : slice k s0 (Z.of_nat (length (chars k)))
                   = str (drop (Z.to_nat s0) (chars k))).
  { unfold slice. f_equal. apply take_ge. rewrite length_drop. lia. }
  destruct ((startDot st =? -1)
            || (preDotState st =? 0)
            || ((preDotState st =? 1)
                && (startDot st =? Z.of_nat (length (chars k)) - 1)
                && (startDot st =? startPart st + 1))) eqn:Hcond.
  - intros [= <- <- <-]. rewrite Hwhole.
    change (replace_dot "") with "". cbn [String.eqb].
    rewrite <- (str_app _ []), app_nil_r. reflexivity.
  - intros [= <- <- <-].
    destruct Hdot as [[Hsd _] | (Hsd & Hat & _)].
    { rewrite Hsd in Hcond. discriminate Hcond. }
    assert (Hnl : startDot st <> Z.of_nat (length (chars k)) - 1)
      by (intros Heq; apply Hlast; rewrite <- Heq; exact Hat).
    assert (Hext : slice k (startDot st) (Z.of_nat (length (chars k)))
                   = str (CHAR_DOT :: drop (S (Z.to_nat (startDot st))) (chars k))).
    { unfold slice. f_equal. rewrite take_ge by (rewrite length_drop; lia).
      apply drop_S. exact Hat. }
    rewrite Hext, replace_dot_leading, str_eqb_empty.
    destruct (drop (S (Z.to_nat (startDot st))) (chars k)) as [|c rest] eqn:Hrest.
    { apply (f_equal length) in Hrest. rewrite length_drop in Hrest.
      simpl in Hrest. lia. }
    rewrite <- Hrest.
    change ("." +:+ str (drop (S (Z.to_nat (startDot st))) (chars k)))
      with (str (CHAR_DOT :: drop (S (Z.to_nat (startDot st))) (chars k))).
    unfold slice. rewrite <- str_app. f_equal.
    rewrite <- (drop_S _ _ _ Hat).
    rewrite <- (take_drop (Z.to_nat (startDot st) - Z.to_nat s0)
                  (drop (Z.to_nat s0) (chars k))) at 2.
    f_equal. rewrite drop_drop. f_equal. lia.
Qed.

Lemma rejoin_key_reconstructs (k : string) :
  strlen k <> 0 ->
  chars k !! Z.to_nat (strlen k - 1) <> Some CHAR_FORWARD_SLASH ->
  chars k !! Z.to_nat (strlen k - 1) <> Some CHAR_DOT ->
  (forall rest, chars k = CHAR_FORWARD_SLASH :: rest -> CHAR_FORWARD_SLASH ∈ rest) ->
  rejoin_key k = k.
Proof.
  intros Hlen0 Hlast Hlastdot Habs.
  pose proof (start_in_range k Hlen0 Hlast) as Hrange.
  pose proof (scan_all k _ Hrange Hlast) as Hpost.
  unfold rejoin_key, rejoin, ext_of, parse.
  rewrite (proj2 (Z.eqb_neq _ _) Hlen0).
  set (isAbsolute := is_code (charCodeAt k 0) CHAR_FORWARD_SLASH) in *.
  set (start := if isAbsolute then 1 else 0) in *.
  set (st := scan k start (Z.to_nat (strlen k)) scan0) in *.
  destruct Hpost as [Hend Hpost].
  change (Z.of_nat (length (chars k))) with (strlen k) in *.
  destruct Hpost as [(Hsp & Hnc & Hdot) | (Hsp & Hat & Hnc & Hdot)].
  - (* no separator: the key is its own last segment *)
    assert (Hrel : isAbsolute = false).
    { destruct isAbsolute eqn:Ha; [|reflexivity]. exfalso.
      apply is_code_true in Ha; [|lia]. simpl in Ha.
      destruct (chars k) as [|c0 rest] eqn:Hk; [discriminate Ha|].
      injection Ha as ->.
      destruct (proj1 (list_elem_of_lookup _ _) (Habs rest eq_refl)) as [j Hj].
      apply (Hnc (Z.of_nat (S j))).
      - subst start. unfold strlen. rewrite Hk. simpl length.
        apply lookup_lt_Some in Hj. lia.
      - rewrite Nat2Z.id. exact Hj. }
    subst start. rewrite Hrel in *. rewrite Hsp. cbn [Z.eqb Z.ltb Z.compare andb].
    destruct (segment k st 0) as [[b n] e] eqn:HX.
    cbn [dir name ext String.eqb].
    rewrite (segment_rejoin k st 0 b n e Hend Hrange Hdot Hlastdot HX).
    simpl. apply str_chars.
  - (* the last separator is at [startPart st - 1] *)
    assert (Hsp0 : (startPart st =? 0) = false) by (apply Z.eqb_neq; lia).
    assert (Hsp1 : (0 <? startPart st) = true) by (apply Z.ltb_lt; lia).
    rewrite Hsp0, Hsp1. cbn [andb].
    destruct (segment k st (startPart st)) as [[b n] e] eqn:HX.
    cbn [dir name ext].
    assert (Hs0 : 0 <= startPart st < strlen k) by lia.
    rewrite (segment_rejoin k st (startPart st) b n e Hend Hs0 Hdot Hlastdot HX).
    assert (Hdir : 1 <= startPart st - 1).
    { destruct (Z.eq_dec (startPart st) 1) as [H1|H1]; [|lia]. exfalso.
      rewrite H1 in Hat. simpl in Hat.
      assert (Ha : isAbsolute = true) by (apply is_code_true; [lia | exact Hat]).
      subst start. rewrite Ha in Hsp. lia. }
    unfold slice. rewrite str_eqb_empty.
    replace (Z.to_nat (startPart st - 1) - Z.to_nat 0)%nat
      with (Z.to_nat (startPart st - 1)) by lia.
    change (Z.to_nat 0) with 0%nat. rewrite drop_0.
    destruct (take (Z.to_nat (startPart st - 1)) (chars k)) as [|c0 d0] eqn:Hd.
    { apply (f_equal length) in Hd. rewrite length_take in Hd.
      unfold strlen in *. simpl in Hd. lia. }
    rewrite <- Hd.
    change "/" with (str [CHAR_FORWARD_SLASH]).
    rewrite <- !str_app.
    transitivity (str (chars k)); [|apply str_chars]. f_equal.
    rewrite <- (take_drop (Z.to_nat (startPart st - 1)) (chars k)) at 3.
    rewrite <- app_assoc. f_equal.
    rewrite (drop_S _ _ _ Hat). simpl. f_equal. f_equal. lia.
Qed.

Lemma not_supported (x : string) : x ∉ supported <-> x <> "heic".
Proof. unfold supported. rewrite list_elem_of_singleton. reflexivity. Qed.

(** ** The claims *)

(** C10. When [event.Records] is missing or is an empty array, the handler
    rejects with a TypeError and has sent no command to S3 (no HeadObject,
    GetObject or PutObject). *)
Theorem C10_no_record_throws (w : World) (event : Event) :
  Records event = None \/ Records event = Some [] ->
  (exists message, (handler w event).2 = Rejected (TypeError message)) /\
  commands (handler w event).1 = [].
Proof.
  intros H. unfold handler, handler_body, first_record.
  destruct H as [-> | ->]; simpl; eauto.
Qed.

Lemma C10_no_record_throws_witness :
  (Records {| Records := Some [] |} = None \/
   Records {| Records := Some [] |} = Some []) /\
  (exists message,
     (handler world_ok {| Records := Some [] |}).2 = Rejected (TypeError message)) /\
  commands (handler world_ok {| Records := Some [] |}).1 = [].
Proof.
  split.
  - right. reflexivity.
  - apply (C10_no_record_throws world_ok {| Records := Some [] |}).
    right. reflexivity.
Defined.

(** C2, as stated, fails: with 'image-processed' set to "false" and
    'Image-Processed' set to "true" the map has an entry under one of the
    two keys whose value is "true", and the handler fetches and rewrites the
    object. *)
Lemma C2_counterexample :
  s3_head (world_with (Some meta_two_flags)) "bk" "a.heic"
    = Ok {| Metadata := Some meta_two_flags |} /\
  meta_two_flags !! "Image-Processed" = Some "true" /\
  toLowerCase "true" = "true" /\
  gets (handler (world_with (Some meta_two_flags)) (event_for "bk" "a.heic")).1
    = [GetObjectCommand "bk" "a.heic"] /\
  length (puts (handler (world_with (Some meta_two_flags)) (event_for "bk" "a.heic")).1)
    = 1%nat.
Proof. vm_compute. repeat split. Qed.

(** C2, amended. When HeadObject succeeds and the value the gate reads, the
    one under 'image-processed' or, when that entry is missing or empty, the
    one under 'Image-Processed', lowercases to "true", the handler resolves
    with no value, and HeadObject is the only command it has sent: no
    GetObject and no PutObject. *)
Theorem C2_flagged_is_skipped (w : World) (event : Event) (r : S3Record)
    (k : string) (h : HeadObjectOutput) (meta : gmap string string) (v : string) :
  first_record event = Ok r ->
  decode_key (object_key r) = Ok k ->
  s3_head w (bucket_name r) k = Ok h ->
  Metadata h = Some meta ->
  toLowerCase v = "true" ->
  meta !! "image-processed" = Some v \/
  ((meta !! "image-processed" = None \/ meta !! "image-processed" = Some "") /\
   meta !! "Image-Processed" = Some v) ->
  (handler w event).2 = Resolved None /\
  commands (handler w event).1 = [HeadObjectCommand (bucket_name r) k] /\
  gets (handler w event).1 = [] /\
  puts (handler w event).1 = [].
Proof.
  intros Hr Hk Hh Hm Hv Hflag.
  assert (Hp : processed_flag (default ∅ (Metadata h)) = true).
  { rewrite Hm. simpl. unfold processed_flag.
    assert (Hne : v <> "") by (intros ->; discriminate Hv).
    destruct Hflag as [H1 | [[H1 | H1] H2]]; rewrite H1; try rewrite H2;
      rewrite ?or_else_undefined, ?or_else_empty;
      rewrite !(or_else_keeps v) by assumption;
      rewrite Hv; reflexivity. }
  rewrite (handler_of_key w event r k Hr Hk).
  rewrite (gate_of_flagged w _ k h Hh Hp).
  repeat split.
Qed.

Lemma C2_flagged_is_skipped_witness :
  (handler (world_with (Some {[ "Image-Processed" := "TRUE" ]}))
     (event_for "bk" "a.heic")).2 = Resolved None /\
  commands (handler (world_with (Some {[ "Image-Processed" := "TRUE" ]}))
              (event_for "bk" "a.heic")).1 = [HeadObjectCommand "bk" "a.heic"] /\
  gets (handler (world_with (Some {[ "Image-Processed" := "TRUE" ]}))
          (event_for "bk" "a.heic")).1 = [] /\
  puts (handler (world_with (Some {[ "Image-Processed" := "TRUE" ]}))
          (event_for "bk" "a.heic")).1 = [].
Proof.
  apply (C2_flagged_is_skipped
           (world_with (Some {[ "Image-Processed" := "TRUE" ]}))
           (event_for "bk" "a.heic")
           {| bucket_name := "bk"; object_key := "a.heic" |} "a.heic"
           {| Metadata := Some {[ "Image-Processed" := "TRUE" ]} |}
           {[ "Image-Processed" := "TRUE" ]} "TRUE").
  - reflexivity.
  - reflexivity.
  - reflexivity.
  - reflexivity.
  - reflexivity.
  - right. split; [left |]; reflexivity.
Defined.

(** C3. When HeadObject fails, with any error, the run is the run on an
    object without the flag: same outcome, same commands, and the same
    trace but for the warning; it goes on to resolve the key and classify
    the type. *)
Theorem C3_head_failure_proceeds (w : World) (event : Event) (r : S3Record)
    (k : string) (e : Error) (h : HeadObjectOutput) :
  first_record event = Ok r ->
  decode_key (object_key r) = Ok k ->
  s3_head w (bucket_name r) k = Fail e ->
  processed_flag (default ∅ (Metadata h)) = false ->
  let failed := handler w event in
  let unflagged := handler (with_head w (fun _ _ => Ok h)) event in
  failed.2 = unflagged.2 /\
  commands failed.1 = commands unflagged.1 /\
  exists tp,
    head tp = Some (type_line k) /\
    unflagged.1 =
      [start_line event; processing_line k;
       Send (HeadObjectCommand (bucket_name r) k)] ++ tp /\
    failed.1 =
      [start_line event; processing_line k;
       Send (HeadObjectCommand (bucket_name r) k); warn_line e] ++ tp.
Proof.
  intros Hr Hk Hh Hp failed unflagged. subst failed unflagged.
  rewrite (handler_of_key w event r k Hr Hk).
  rewrite (handler_of_key (with_head w (fun _ _ => Ok h)) event r k Hr Hk).
  rewrite (gate_of_failure w _ k e Hh).
  rewrite (gate_of_unflagged (with_head w (fun _ _ => Ok h)) _ k h eq_refl Hp).
  rewrite pipeline_with_head.
  pose proof (pipeline_run w (bucket_name r) k) as Hrun.
  destruct (pipeline w (bucket_name r) k) as [tp cp].
  apply pipeline_starts in Hrun.
  destruct cp as [[]|v|e']; simpl; (split; [reflexivity|]);
    (split; [reflexivity|]); exists tp; auto.
Qed.

Lemma C3_head_failure_proceeds_witness :
  let failed := handler world_head_denied (event_for "bk" "a.heic") in
  let unflagged :=
    handler (with_head world_head_denied (fun _ _ => Ok {| Metadata := None |}))
      (event_for "bk" "a.heic") in
  failed.2 = unflagged.2 /\
  commands failed.1 = commands unflagged.1 /\
  exists tp,
    head tp = Some (type_line "a.heic") /\
    unflagged.1 =
      [start_line (event_for "bk" "a.heic"); processing_line "a.heic";
       Send (HeadObjectCommand "bk" "a.heic")] ++ tp /\
    failed.1 =
      [start_line (event_for "bk" "a.heic"); processing_line "a.heic";
       Send (HeadObjectCommand "bk" "a.heic"); warn_line access_denied] ++ tp.
Proof.
  apply (C3_head_failure_proceeds world_head_denied (event_for "bk" "a.heic")
           {| bucket_name := "bk"; object_key := "a.heic" |} "a.heic"
           access_denied {| Metadata := None |}).
  - reflexivity.
  - reflexivity.
  - reflexivity.
  - reflexivity.
Defined.

(** C1. When the fetch, the collection of the body, the HEIC conversion or
    the resize fails, the run sends no PutObject and leaves every stored
    object as it was, and, the gate passed on a 'heic' key, it rejects with
    that failure; a PutObject is sent only after the four stages have
    succeeded, and it is then the only one of the run. *)
Theorem C1_no_write_on_failure (w : World) (event : Event) (r : S3Record)
    (k : string) :
  first_record event = Ok r ->
  decode_key (object_key r) = Ok k ->
  (forall e, StageFails w (bucket_name r) k e ->
     puts (handler w event).1 = [] /\
     (forall st, store_after st (handler w event).1 = st) /\
     (gate_passes w (bucket_name r) k -> imageType_of k = "heic" ->
      (handler w event).2 = Rejected e)) /\
  (forall i, i ∈ puts (handler w event).1 ->
     stages_ok w (bucket_name r) k (put_Body i) /\ puts (handler w event).1 = [i]).
Proof.
  intros Hr Hk. split.
  - intros e Hf.
    assert (Hnone : puts (handler w event).1 = []).
    { destruct (puts (handler w event).1) as [|i l] eqn:Hp; [reflexivity|].
      assert (Hi : i ∈ puts (handler w event).1) by (rewrite Hp; left).
      apply handler_puts in Hi as (r' & k' & resized & Hr' & Hk' & _ & Hs & _).
      assert (r' = r) by congruence. subst r'.
      assert (k' = k) by congruence. subst k'.
      exfalso. eapply stages_ok_excludes_failure; eauto. }
    split; [exact Hnone|]. split.
    + intros st. apply store_after_no_put. exact Hnone.
    + intros Hg Ht. eapply handler_stage_failure; eauto.
  - intros i Hi.
    apply handler_puts in Hi as (r' & k' & resized & Hr' & Hk' & _ & Hs & -> & Hone).
    assert (r' = r) by congruence. subst r'.
    assert (k' = k) by congruence. subst k'.
    split; [exact Hs | exact Hone].
Qed.

Lemma C1_no_write_on_failure_witness :
  (puts (handler world_get_denied (event_for "bk" "a.heic")).1 = [] /\
   (forall st, store_after st (handler world_get_denied (event_for "bk" "a.heic")).1 = st) /\
   (handler world_get_denied (event_for "bk" "a.heic")).2 = Rejected access_denied) /\
  (stages_ok world_ok "bk" "a.heic" [x01; x02; x03; x0a; x0b] /\
   puts (handler world_ok (event_for "bk" "a.heic")).1
     = [published "bk" "a.heic" [x01; x02; x03; x0a; x0b]]).
Proof.
  split.
  - destruct (C1_no_write_on_failure world_get_denied (event_for "bk" "a.heic")
                {| bucket_name := "bk"; object_key := "a.heic" |} "a.heic"
                eq_refl eq_refl) as [H _].
    destruct (H access_denied
                (fetch_fails world_get_denied "bk" "a.heic" access_denied eq_refl))
      as (H1 & H2 & H3).
    split; [exact H1|]. split; [exact H2|].
    apply H3.
    + intros h Hh. injection Hh as <-. reflexivity.
    + reflexivity.
  - destruct (C1_no_write_on_failure world_ok (event_for "bk" "a.heic")
                {| bucket_name := "bk"; object_key := "a.heic" |} "a.heic"
                eq_refl eq_refl) as [_ H].
    apply (H (published "bk" "a.heic" [x01; x02; x03; x0a; x0b])).
    vm_compute. left.
Defined.

(** C5. An event with raw key "photo+name.HEIC", on an object the gate lets
    through, and with the four stages succeeding: the key decodes to
    "photo name.HEIC", the base name is "photo name", the type is "heic" and
    is supported, and the run sends one PutObject, to the same bucket and
    key, with the resized buffer, ContentType "image/jpg" and exactly the
    four metadata entries; when that write succeeds the run resolves with
    the status line. *)
Theorem C5_photo_name_scenario (w : World) (bucket : string) (resized : Buffer) :
  gate_passes w bucket "photo name.HEIC" ->
  stages_ok w bucket "photo name.HEIC" resized ->
  let event := event_for bucket "photo+name.HEIC" in
  let request :=
    {| put_Bucket := bucket;
       put_Key := "photo name.HEIC";
       put_Body := resized;
       put_ContentType := "image/jpg";
       put_Metadata :=
         {[ "image-processed" := "true"; "processed-width" := "1000";
            "original-ext" := "heic"; "output-format" := "jpg" ]} |} in
  decode_key "photo+name.HEIC" = Ok "photo name.HEIC" /\
  name (parse "photo name.HEIC") = "photo name" /\
  imageType_of "photo name.HEIC" = "heic" /\
  includes supported (imageType_of "photo name.HEIC") = true /\
  commands (handler w event).1 =
    [HeadObjectCommand bucket "photo name.HEIC";
     GetObjectCommand bucket "photo name.HEIC";
     PutObjectCommand request] /\
  (forall res, s3_put w request = Ok res ->
     (handler w event).2 =
       Resolved (Some ("Processed and overwritten " +:+ bucket
                         +:+ "/photo name.HEIC (format: jpg)"))).
Proof.
  intros Hg Hs event request.
  assert (Hreq : published bucket "photo name.HEIC" resized = request).
  { unfold published, put_request, request. vm_compute. reflexivity. }
  destruct (handler_transform w event
              {| bucket_name := bucket; object_key := "photo+name.HEIC" |}
              "photo name.HEIC" resized eq_refl eq_refl Hg eq_refl Hs)
    as (Hc & Hok & _).
  cbn [bucket_name] in Hc, Hok. rewrite Hreq in Hc, Hok.
  repeat (split; [reflexivity || exact Hc|]).
  intros res Hres. rewrite (Hok res Hres). reflexivity.
Qed.

Lemma C5_photo_name_scenario_witness :
  commands (handler world_ok (event_for "bk" "photo+name.HEIC")).1 =
    [HeadObjectCommand "bk" "photo name.HEIC";
     GetObjectCommand "bk" "photo name.HEIC";
     PutObjectCommand
       {| put_Bucket := "bk";
          put_Key := "photo name.HEIC";
          put_Body := [x01; x02; x03; x0a; x0b];
          put_ContentType := "image/jpg";
          put_Metadata :=
            {[ "image-processed" := "true"; "processed-width" := "1000";
               "original-ext" := "heic"; "output-format" := "jpg" ]} |}] /\
  (handler world_ok (event_for "bk" "photo+name.HEIC")).2 =
    Resolved (Some "Processed and overwritten bk/photo name.HEIC (format: jpg)").
Proof.
  destruct (C5_photo_name_scenario world_ok "bk" [x01; x02; x03; x0a; x0b])
    as (_ & _ & _ & _ & Hc & Hok).
  - intros h Hh. injection Hh as <-. reflexivity.
  - exists {| Body := Some sample_body |}, [x01; x02; x03], [x01; x02; x03; x0a].
    repeat split.
  - split; [exact Hc|]. apply (Hok {| ETag := "etag" |}). reflexivity.
Defined.

(** C6, as stated, fails: for key "photo.HEIC" the extension in its original
    case is "HEIC", and the value published under 'original-ext' is
    "heic". *)
Lemma C6_counterexample :
  ext_of "photo.HEIC" = "HEIC" /\
  map (fun i => put_Metadata i !! "original-ext")
      (puts (handler world_ok (event_for "bk" "photo.HEIC")).1) = [Some "heic"].
Proof. vm_compute. split; reflexivity. Qed.

(** C6, amended. The extension is lowercased for classification, and that
    lowercased extension is also the value every published object records
    under 'original-ext'. *)
Theorem C6_original_ext_is_lowercased (w : World) (event : Event)
    (i : PutObjectInput) :
  i ∈ puts (handler w event).1 ->
  exists r k,
    first_record event = Ok r /\ decode_key (object_key r) = Ok k /\
    includes supported (toLowerCase (ext_of k)) = true /\
    put_Metadata i !! "original-ext" = Some (toLowerCase (ext_of k)).
Proof.
  intros Hi.
  apply handler_puts in Hi as (r & k & resized & Hr & Hk & Ht & _ & -> & _).
  exists r, k. repeat (split; [assumption|]). split.
  - apply includes_supported. exact Ht.
  - unfold published, put_request. cbn [put_Metadata].
    unfold imageType_of in Ht. unfold imageType_of. rewrite Ht.
    vm_compute. reflexivity.
Qed.

Lemma C6_original_ext_is_lowercased_witness :
  exists r k,
    first_record (event_for "bk" "photo.HEIC") = Ok r /\
    decode_key (object_key r) = Ok k /\
    includes supported (toLowerCase (ext_of k)) = true /\
    put_Metadata (published "bk" "photo.HEIC" [x01; x02; x03; x0a; x0b])
      !! "original-ext" = Some (toLowerCase (ext_of k)).
Proof.
  apply (C6_original_ext_is_lowercased world_ok (event_for "bk" "photo.HEIC")
           (published "bk" "photo.HEIC" [x01; x02; x03; x0a; x0b])).
  vm_compute. left.
Defined.

(** C7, as stated, fails: the skip and the unsupported-type completions
    carry no status string; both resolve with undefined. *)
Lemma C7_counterexample :
  (handler (world_with (Some {[ "image-processed" := "true" ]}))
     (event_for "bk" "a.heic")).2 = Resolved None /\
  (handler world_ok (event_for "bk" "diagram.png")).2 = Resolved None.
Proof. vm_compute. split; reflexivity. Qed.

(** C7, amended. The three outcomes are normal completions. Only the
    successful transform carries a status string; the skip and the
    unsupported-type completions resolve with no value, and differ by the
    last console line of the run. *)
Theorem C7_normal_completions (w : World) (event : Event) (r : S3Record)
    (k : string) :
  first_record event = Ok r ->
  decode_key (object_key r) = Ok k ->
  (forall h, s3_head w (bucket_name r) k = Ok h ->
     processed_flag (default ∅ (Metadata h)) = true ->
     (handler w event).2 = Resolved None /\
     last (handler w event).1 = Some skip_line) /\
  (gate_passes w (bucket_name r) k -> imageType_of k <> "heic" ->
     (handler w event).2 = Resolved None /\
     last (handler w event).1 = Some (unsupported_line k)) /\
  (forall resized res,
     gate_passes w (bucket_name r) k -> imageType_of k = "heic" ->
     stages_ok w (bucket_name r) k resized ->
     s3_put w (published (bucket_name r) k resized) = Ok res ->
     (handler w event).2 =
       Resolved (Some (status_line (bucket_name r) k "jpg"))) /\
  skip_line <> unsupported_line k.
Proof.
  intros Hr Hk. split; [|split; [|split]].
  - intros h Hh Hp. rewrite (handler_of_key w event r k Hr Hk).
    rewrite (gate_of_flagged w _ k h Hh Hp). split; reflexivity.
  - intros Hg Ht. apply (handler_unsupported w event r k Hr Hk Hg Ht).
  - intros resized res Hg Ht Hs Hput.
    destruct (handler_transform w event r k resized Hr Hk Hg Ht Hs) as (_ & Hok & _).
    rewrite (Hok res Hput), Ht. reflexivity.
  - unfold skip_line, unsupported_line. intros H. discriminate H.
Qed.

Lemma C7_normal_completions_witness :
  ((handler (world_with (Some {[ "image-processed" := "true" ]}))
      (event_for "bk" "a.heic")).2 = Resolved None /\
   last (handler (world_with (Some {[ "image-processed" := "true" ]}))
           (event_for "bk" "a.heic")).1 = Some skip_line) /\
  ((handler world_ok (event_for "bk" "diagram.png")).2 = Resolved None /\
   last (handler world_ok (event_for "bk" "diagram.png")).1
     = Some (unsupported_line "diagram.png")) /\
  (handler world_ok (event_for "bk" "a.heic")).2
    = Resolved (Some "Processed and overwritten bk/a.heic (format: jpg)").
Proof.
  split; [|split].
  - destruct (C7_normal_completions
                (world_with (Some {[ "image-processed" := "true" ]}))
                (event_for "bk" "a.heic")
                {| bucket_name := "bk"; object_key := "a.heic" |} "a.heic"
                eq_refl eq_refl) as (H & _).
    apply (H {| Metadata := Some {[ "image-processed" := "true" ]} |});
      reflexivity.
  - destruct (C7_normal_completions world_ok (event_for "bk" "diagram.png")
                {| bucket_name := "bk"; object_key := "diagram.png" |} "diagram.png"
                eq_refl eq_refl) as (_ & H & _).
    apply H.
    + intros h Hh. injection Hh as <-. reflexivity.
    + vm_compute. discriminate.
  - destruct (C7_normal_completions world_ok (event_for "bk" "a.heic")
                {| bucket_name := "bk"; object_key := "a.heic" |} "a.heic"
                eq_refl eq_refl) as (_ & _ & H & _).
    apply (H [x01; x02; x03; x0a; x0b] {| ETag := "etag" |}).
    + intros h Hh. injection Hh as <-. reflexivity.
    + reflexivity.
    + exists {| Body := Some sample_body |}, [x01; x02; x03], [x01; x02; x03; x0a].
      repeat split.
    + reflexivity.
Defined.



(** C4, as stated, fails on the keys "with no extension at all" when these
    are read on the text of the key: in "a.heic/" no dot follows the last
    '/', yet the extension resolves to "heic", not to the empty string, and
    the handler fetches and rewrites the object. *)
Lemma C4_counterexample :
  no_dot_after_last_slash "a.heic/" /\
  ext_of "a.heic/" = "heic" /\
  (handler world_ok (event_for "bk" "a.heic/")).2
    = Resolved (Some "Processed and overwritten bk/a.heic/ (format: jpg)") /\
  gets (handler world_ok (event_for "bk" "a.heic/")).1
    = [GetObjectCommand "bk" "a.heic/"] /\
  puts (handler world_ok (event_for "bk" "a.heic/")).1
    = [published "bk" "a.heic/" [x01; x02; x03; x0a; x0b]].
Proof.
  split.
  - exists (chars "a.heic"), []. split; [right; reflexivity|].
    split; intros H; inversion H.
  - vm_compute. repeat split.
Qed.

(** C4, amended. When the lowercased extension of the decoded key is not in
    the allowlist, the handler resolves with no value, and sends no
    GetObject and no PutObject. This holds in particular for every key
    without extension in the sense of [path.posix.parse], which sets
    trailing '/' aside: a key where, these set aside, nothing is left or
    the last segment has no dot; its extension resolves to the empty
    string. *)
Theorem C4_unsupported_is_noop (w : World) (event : Event) (r : S3Record)
    (k : string) :
  first_record event = Ok r ->
  decode_key (object_key r) = Ok k ->
  imageType_of k ∉ supported \/ no_extension k ->
  (no_extension k -> ext_of k = "" /\ imageType_of k ∉ supported) /\
  (handler w event).2 = Resolved None /\
  gets (handler w event).1 = [] /\
  puts (handler w event).1 = [].
Proof.
  intros Hr Hk Hcase.
  assert (Hnoext : no_extension k -> ext_of k = "" /\ imageType_of k ∉ supported).
  { intros Hn. apply no_extension_no_dot in Hn.
    unfold imageType_of, ext_of. rewrite Hn. split; [reflexivity|].
    apply not_supported. discriminate. }
  split; [exact Hnoext|].
  assert (Ht : imageType_of k <> "heic").
  { apply not_supported. destruct Hcase as [H|H]; [exact H | apply Hnoext, H]. }
  split.
  - pose proof (handler_run w event) as Hrun.
    destruct (handler w event) as [t o]. cbn [snd].
    inversion Hrun; subst; try congruence.
    assert (r0 = r) by congruence. subst r0.
    assert (k0 = k) by congruence. subst k0.
    match goal with Hp : PipelineRun _ _ _ _ |- _ => inversion Hp; subst end;
      try reflexivity;
      match goal with H : includes supported _ = true |- _ =>
        apply includes_supported in H; contradiction end.
  - unfold gets. rewrite puts_of_commands.
    destruct (handler_commands w event)
      as [H | (r' & k' & Hr' & Hk' & [H | (Ht' & _)])].
    + rewrite H. split; reflexivity.
    + rewrite H. split; reflexivity.
    + assert (k' = k) by congruence. subst k'. contradiction.
Qed.

Lemma C4_unsupported_is_noop_witness :
  (ext_of "archive.d/folder/" = "" /\ imageType_of "archive.d/folder/" ∉ supported) /\
  (handler world_ok (event_for "bk" "archive.d/folder/")).2 = Resolved None /\
  gets (handler world_ok (event_for "bk" "archive.d/folder/")).1 = [] /\
  puts (handler world_ok (event_for "bk" "archive.d/folder/")).1 = [].
Proof.
  assert (Hn : no_extension "archive.d/folder/").
  { exists (chars "archive.d/folder"), (chars "/").
    split; [reflexivity|]. split; [repeat constructor|]. right.
    exists (chars "archive.d"), (chars "folder").
    split; [right; reflexivity|].
    split; [discriminate|].
    split; intros H; vm_compute in H;
      repeat (apply elem_of_cons in H as [H|H]; [discriminate H|]);
      inversion H. }
  destruct (C4_unsupported_is_noop world_ok (event_for "bk" "archive.d/folder/")
              {| bucket_name := "bk"; object_key := "archive.d/folder/" |}
              "archive.d/folder/" eq_refl eq_refl (or_intror Hn)) as (H1 & H2).
  split; [exact (H1 Hn) | exact H2].
Defined.

(** C8, as stated, fails, in three ways: key "folder/" resolves to an empty
    directory and base name "folder", and the parts re-join to "folder";
    key "photo." resolves to base name "photo" and an empty extension, and
    re-joins to "photo"; key "/a.heic" resolves to directory "/", and
    re-joins to "//a.heic". *)
Lemma C8_counterexample :
  (dir (parse "folder/") = "" /\ name (parse "folder/") = "folder" /\
   ext_of "folder/" = "" /\ rejoin_key "folder/" <> "folder/") /\
  (name (parse "photo.") = "photo" /\ ext_of "photo." = "" /\
   rejoin_key "photo." <> "photo.") /\
  (dir (parse "/a.heic") = "/" /\ name (parse "/a.heic") = "a" /\
   ext_of "/a.heic" = "heic" /\ rejoin_key "/a.heic" <> "/a.heic").
Proof. vm_compute. repeat split; discriminate. Qed.

(** C8, amended. For every decoded key that does not end in '/' or in '.',
    and that is not a leading '/' followed by a name without '/', re-joining
    directory (with a separator when it is not empty), base name and
    extension (with its dot when it is not empty) gives back the key. *)
Theorem C8_rejoin_reconstructs (k : string) :
  (forall c, last (chars k) = Some c -> c <> "/"%char /\ c <> "."%char) ->
  (forall rest, chars k = "/"%char :: rest -> "/"%char ∈ rest) ->
  rejoin_key k = k.
Proof.
  intros Hlast Habs.
  destruct (Z.eq_dec (strlen k) 0) as [H0|H0].
  - unfold strlen in H0. destruct (chars k) as [|c l] eqn:Hk; [|simpl in H0; lia].
    rewrite <- (str_chars k), Hk. reflexivity.
  - assert (Hidx : Z.to_nat (strlen k - 1) = pred (length (chars k)))
      by (unfold strlen; lia).
    apply rejoin_key_reconstructs; try assumption;
      rewrite Hidx, <- last_lookup; intros Hc; apply Hlast in Hc;
      unfold CHAR_FORWARD_SLASH, CHAR_DOT in Hc; destruct Hc; congruence.
Qed.

Lemma C8_rejoin_reconstructs_witness :
  rejoin_key "a/b/photo name.HEIC" = "a/b/photo name.HEIC".
Proof.
  apply (C8_rejoin_reconstructs "a/b/photo name.HEIC").
  - intros c Hc. vm_compute in Hc. injection Hc as <-. split; discriminate.
  - intros rest Hr. vm_compute in Hr. discriminate Hr.
Defined.

(** ** Further properties of [bodyToBuffer] *)

Lemma collect_spec (src : Source) (acc : list Buffer) :
  collect src acc =
    match source_error src with
    | None => Ok (acc ++ source_chunks src)
    | Some e => Fail e
    end.
Proof.
  revert acc. induction src as [|chunk rest IH|e]; intros acc; simpl.
  - rewrite app_nil_r. reflexivity.
  - rewrite IH. destruct (source_error rest); [reflexivity|].
    rewrite <- app_assoc. reflexivity.
  - reflexivity.
Qed.

(** X1. When the stream of the body (the Readable, or the web stream when
    there is no Readable) ends without failure, [bodyToBuffer] returns all
    its chunks, concatenated in the order they came; whatever
    [transformToByteArray] would answer plays no part. *)
Theorem bodyToBuffer_whole_stream (b : S3Body) (src : Source) :
  body_stream b = Some src ->
  source_error src = None ->
  bodyToBuffer (Some b) = Ok (concat (source_chunks src)).
Proof.
  intros Hs He. unfold bodyToBuffer, body_stream in *.
  destruct (read b) as [src'|].
  - injection Hs as ->. rewrite collect_spec, He. reflexivity.
  - rewrite Hs, collect_spec, He. reflexivity.
Qed.

Lemma bodyToBuffer_whole_stream_witness :
  bodyToBuffer
    (Some {| read := None;
             getReader := Some (SChunk [x01] (SChunk [] (SChunk [x02; x03] SEnd)));
             transformToByteArray := Some (Fail access_denied) |})
    = Ok [x01; x02; x03].
Proof.
  apply (bodyToBuffer_whole_stream
           {| read := None;
              getReader := Some (SChunk [x01] (SChunk [] (SChunk [x02; x03] SEnd)));
              transformToByteArray := Some (Fail access_denied) |}
           (SChunk [x01] (SChunk [] (SChunk [x02; x03] SEnd)))).
  - reflexivity.
  - reflexivity.
Defined.

(** X2. When the stream of the body fails, after any number of chunks,
    [bodyToBuffer] fails with that same error: the chunks read so far are
    not returned. *)
Theorem bodyToBuffer_broken_stream (b : S3Body) (src : Source) (e : Error) :
  body_stream b = Some src ->
  source_error src = Some e ->
  bodyToBuffer (Some b) = Fail e.
Proof.
  intros Hs He. unfold bodyToBuffer, body_stream in *.
  destruct (read b) as [src'|].
  - injection Hs as ->. rewrite collect_spec, He. reflexivity.
  - rewrite Hs, collect_spec, He. reflexivity.
Qed.

Lemma bodyToBuffer_broken_stream_witness :
  bodyToBuffer
    (Some {| read := Some (SChunk [x01; x02] (SChunk [x03] (SError access_denied)));
             getReader := None;
             transformToByteArray := Some (Ok [x01]) |})
    = Fail access_denied.
Proof.
  apply (bodyToBuffer_broken_stream
           {| read := Some (SChunk [x01; x02] (SChunk [x03] (SError access_denied)));
              getReader := None;
              transformToByteArray := Some (Ok [x01]) |}
           (SChunk [x01; x02] (SChunk [x03] (SError access_denied)))
           access_denied).
  - reflexivity.
  - reflexivity.
Defined.

(** ** Further properties of the key decoding, line 41 *)

Lemma unescape_plain (l : list ascii) :
  "%"%char ∉ l -> unescape l = Some (map Lit l).
Proof.
  induction l as [|c l IH]; intros Hn; [reflexivity|].
  cbn [unescape map].
  destruct (Ascii.eqb_spec c "%") as [->|_].
  - exfalso. apply Hn. left.
  - rewrite IH; [reflexivity|]. intros H. apply Hn. right. exact H.
Qed.

Lemma utf8_literals (l : list ascii) : utf8 (map Lit l) = Some l.
Proof.
  induction l as [|c l IH]; [reflexivity|]. cbn [utf8 map]. rewrite IH. reflexivity.
Qed.

Lemma plus_to_space_percent (c : ascii) :
  (if Ascii.eqb c "+" then " "%char else c) = "%"%char -> c = "%"%char.
Proof. destruct (Ascii.eqb_spec c "+"); [discriminate|auto]. Qed.

Lemma chars_replace_plus (s : string) :
  chars (replace_plus s)
    = map (fun c => if Ascii.eqb c "+" then " "%char else c) (chars s).
Proof. unfold replace_plus. apply chars_str. Qed.

(** X3. A raw key without '%' decodes to itself with every '+' turned into
    a space: the decoded key has the same length and no '+' left. *)
Theorem decode_key_without_escapes (raw : string) :
  "%"%char ∉ chars raw ->
  decode_key raw = Ok (replace_plus raw) /\
  strlen (replace_plus raw) = strlen raw /\
  "+"%char ∉ chars (replace_plus raw).
Proof.
  intros Hn. split; [|split].
  - unfold decode_key, decodeURIComponent.
    rewrite unescape_plain.
    + rewrite utf8_literals, str_chars. reflexivity.
    + rewrite chars_replace_plus. intros H.
      apply list_elem_of_fmap in H as (c & Hc & Hin).
      symmetry in Hc. apply plus_to_space_percent in Hc. subst c. contradiction.
  - unfold strlen. rewrite chars_replace_plus, length_map. reflexivity.
  - rewrite chars_replace_plus. intros H.
    apply list_elem_of_fmap in H as (c & Hc & _).
    destruct (Ascii.eqb_spec c "+"); [discriminate Hc | congruence].
Qed.

Lemma decode_key_without_escapes_witness :
  decode_key "a+b/c+d.HEIC" = Ok (replace_plus "a+b/c+d.HEIC") /\
  strlen (replace_plus "a+b/c+d.HEIC") = strlen "a+b/c+d.HEIC" /\
  "+"%char ∉ chars (replace_plus "a+b/c+d.HEIC").
Proof.
  apply (decode_key_without_escapes "a+b/c+d.HEIC").
  intros H. vm_compute in H.
  repeat (apply elem_of_cons in H as [H|H]; [discriminate H|]).
  inversion H.
Defined.

Lemma unescape_bad_escape (pre rest : list ascii) :
  "%"%char ∉ pre -> not_hex_pair rest = true ->
  unescape (pre ++ "%"%char :: rest) = None.
Proof.
  intros Hn Hbad. induction pre as [|c pre IH].
  - cbn [app unescape Ascii.eqb]. change (Ascii.eqb "%" "%") with true. cbn iota.
    destruct rest as [|h1 [|h2 l3]]; [reflexivity|reflexivity|].
    cbn [not_hex_pair] in Hbad.
    destruct (hex_val h1); [|reflexivity].
    destruct (hex_val h2); [discriminate Hbad|reflexivity].
  - cbn [app unescape].
    destruct (Ascii.eqb_spec c "%") as [->|_].
    + exfalso. apply Hn. left.
    + rewrite IH; [reflexivity|]. intros H. apply Hn. right. exact H.
Qed.

Lemma hex_val_plus_to_space (c : ascii) :
  hex_val c = None -> hex_val (if Ascii.eqb c "+" then " "%char else c) = None.
Proof. destruct (Ascii.eqb_spec c "+"); [reflexivity|auto]. Qed.

Lemma hex_val_not_plus (c : ascii) (n : N) :
  hex_val c = Some n -> (if Ascii.eqb c "+" then " "%char else c) = c.
Proof. destruct (Ascii.eqb_spec c "+") as [->|]; [discriminate|reflexivity]. Qed.

Lemma not_hex_pair_replace_plus (rest : list ascii) :
  not_hex_pair rest = true ->
  not_hex_pair (map (fun c => if Ascii.eqb c "+" then " "%char else c) rest) = true.
Proof.
  destruct rest as [|h1 [|h2 l3]]; try reflexivity.
  cbn [not_hex_pair map].
  destruct (hex_val h1) as [n1|] eqn:H1.
  - rewrite (hex_val_not_plus h1 n1 H1), H1.
    destruct (hex_val h2) as [n2|] eqn:H2; [discriminate|].
    intros _. rewrite (hex_val_plus_to_space h2 H2). reflexivity.
  - intros _. rewrite (hex_val_plus_to_space h1 H1). reflexivity.
Qed.

(** X4. When the first '%' of the raw key is not followed by two
    hexadecimal digits, the handler rejects with a URIError, has sent no
    command to S3, and has logged nothing but its first line: the error of
    line 41 does not pass through the catch block. *)
Theorem handler_malformed_escape (w : World) (event : Event) (r : S3Record)
    (pre rest : list ascii) :
  first_record event = Ok r ->
  chars (object_key r) = pre ++ "%"%char :: rest ->
  "%"%char ∉ pre ->
  not_hex_pair rest = true ->
  handler w event = ([start_line event], Rejected (URIError "URI malformed")).
Proof.
  intros Hr Hk Hn Hbad.
  assert (Hd : decode_key (object_key r) = Fail (URIError "URI malformed")).
  { unfold decode_key, decodeURIComponent.
    rewrite chars_replace_plus, Hk, map_app. cbn [map Ascii.eqb].
    change (Ascii.eqb "%" "+") with false. cbn iota.
    rewrite unescape_bad_escape; [reflexivity | | apply not_hex_pair_replace_plus, Hbad].
    intros H. apply list_elem_of_fmap in H as (c & Hc & Hin).
    symmetry in Hc. apply plus_to_space_percent in Hc. subst c. contradiction. }
  unfold handler, handler_body. rewrite Hr.
  cbn [bind await ret throw console_log emit app run]. rewrite Hd. reflexivity.
Qed.

Lemma handler_malformed_escape_witness :
  handler world_ok (event_for "bk" "sale+100%.heic")
    = ([start_line (event_for "bk" "sale+100%.heic")],
       Rejected (URIError "URI malformed")).
Proof.
  apply (handler_malformed_escape world_ok (event_for "bk" "sale+100%.heic")
           {| bucket_name := "bk"; object_key := "sale+100%.heic" |}
           (chars "sale+100") (chars ".heic")).
  - reflexivity.
  - reflexivity.
  - intros H. vm_compute in H.
    repeat (apply elem_of_cons in H as [H|H]; [discriminate H|]).
    inversion H.
  - reflexivity.
Defined.

(** ** Further properties of the handler *)

(** X5. The commands of a run are a prefix of HeadObject, GetObject,
    PutObject, in this order, and each of them addresses the bucket of the
    first record and its decoded key: no other object is read or written. *)
Theorem handler_commands_shape (w : World) (event : Event) :
  map kind (commands (handler w event).1) `prefix_of` [KHead; KGet; KPut] /\
  (forall c, c ∈ commands (handler w event).1 ->
     exists r k,
       first_record event = Ok r /\ decode_key (object_key r) = Ok k /\
       target c = (bucket_name r, k)).
Proof.
  destruct (handler_commands w event)
    as [H | (r & k & Hr & Hk & [H | (Ht & [H | (resized & Hs & H)])])];
    rewrite H; cbn [map kind].
  - split; [eexists; reflexivity|]. intros c Hc. inversion Hc.
  - split; [eexists; reflexivity|]. intros c Hc.
    exists r, k. repeat (split; [assumption|]).
    apply list_elem_of_singleton in Hc. subst c. reflexivity.
  - split; [eexists; reflexivity|]. intros c Hc.
    exists r, k. repeat (split; [assumption|]).
    repeat (apply elem_of_cons in Hc as [->|Hc]; [reflexivity|]). inversion Hc.
  - split; [exists []; reflexivity|]. intros c Hc.
    exists r, k. repeat (split; [assumption|]).
    repeat (apply elem_of_cons in Hc as [->|Hc]; [reflexivity|]). inversion Hc.
Qed.

Lemma handler_commands_shape_witness :
  exists r k,
    first_record (event_for "bk" "dir/a+b.heic") = Ok r /\
    decode_key (object_key r) = Ok k /\
    target (GetObjectCommand "bk" "dir/a b.heic") = (bucket_name r, k).
Proof.
  destruct (handler_commands_shape world_ok (event_for "bk" "dir/a+b.heic")) as [_ H].
  apply (H (GetObjectCommand "bk" "dir/a b.heic")).
  vm_compute. right. left.
Defined.

(** X6. Only the first record of the event is processed: two events that
    share their first record give the same run, but for the event printed
    in the first console line. *)
Theorem handler_first_record_only (w : World) (r : S3Record)
    (rest rest' : list S3Record) :
  exists t o,
    handler w {| Records := Some (r :: rest) |}
      = (start_line {| Records := Some (r :: rest) |} :: t, o) /\
    handler w {| Records := Some (r :: rest') |}
      = (start_line {| Records := Some (r :: rest') |} :: t, o).
Proof.
  destruct (decode_key (object_key r)) as [k|e] eqn:Hk.
  - rewrite (handler_of_key w {| Records := Some (r :: rest) |} r k eq_refl Hk).
    rewrite (handler_of_key w {| Records := Some (r :: rest') |} r k eq_refl Hk).
    destruct (bind (gate w (bucket_name r) k)
                (fun _ => pipeline w (bucket_name r) k)) as [t c].
    destruct c as [[]|v|e]; cbn [bind run app]; eexists; eexists; split; reflexivity.
  - unfold handler, handler_body, first_record. cbn [Records].
    cbn [bind await ret throw console_log emit app run]. rewrite Hk.
    eexists; eexists; split; reflexivity.
Qed.

Lemma published_is_flagged (b k : string) (resized : Buffer) :
  processed_flag (put_Metadata (published b k resized)) = true.
Proof.
  unfold published, put_request, processed_flag. cbn [put_Metadata].
  rewrite lookup_insert_eq. reflexivity.
Qed.

(** X7. The metadata a run publishes carry the flag the gate looks for: once
    HeadObject answers with the metadata of a PutObject the handler has
    sent, a run on the same event is skipped after HeadObject. *)
Theorem handler_second_run_skips (w w' : World) (event : Event)
    (i : PutObjectInput) :
  i ∈ puts (handler w event).1 ->
  s3_head w' (put_Bucket i) (put_Key i) = Ok {| Metadata := Some (put_Metadata i) |} ->
  (handler w' event).2 = Resolved None /\
  commands (handler w' event).1 = [HeadObjectCommand (put_Bucket i) (put_Key i)].
Proof.
  intros Hi Hh.
  apply handler_puts in Hi as (r & k & resized & Hr & Hk & _ & _ & -> & _).
  cbn [published put_request put_Bucket put_Key] in *.
  rewrite (handler_of_key w' event r k Hr Hk).
  rewrite (gate_of_flagged w' _ k _ Hh (published_is_flagged _ _ _)).
  split; reflexivity.
Qed.

Lemma handler_second_run_skips_witness :
  (handler (world_with (Some (put_Metadata (published "bk" "a.heic" [x01; x02; x03; x0a; x0b]))))
     (event_for "bk" "a.heic")).2 = Resolved None /\
  commands
    (handler (world_with (Some (put_Metadata (published "bk" "a.heic" [x01; x02; x03; x0a; x0b]))))
       (event_for "bk" "a.heic")).1 = [HeadObjectCommand "bk" "a.heic"].
Proof.
  apply (handler_second_run_skips world_ok
           (world_with (Some (put_Metadata (published "bk" "a.heic" [x01; x02; x03; x0a; x0b]))))
           (event_for "bk" "a.heic")
           (published "bk" "a.heic" [x01; x02; x03; x0a; x0b])).
  - vm_compute. left.
  - reflexivity.
Defined.

Lemma try_catch_logs {A} (m : M A) (t : Trace) (e : Error) :
  try_catch m (fun error =>
                 bind (console_error [LStr "Error processing file:"; LErr error])
                      (fun _ => throw error)) = (t, Throw e) ->
  last t = Some (error_line e).
Proof.
  destruct m as [t0 [a|v|e0]]; cbn; intros H; try discriminate H.
  injection H as <- <-. apply last_snoc.
Qed.

Lemma pipeline_throw_logged (w : World) (b k : string) (t : Trace) (e : Error) :
  pipeline w b k = (t, Throw e) -> last t = Some (error_line e).
Proof. unfold pipeline. apply try_catch_logs. Qed.

Lemma gate_never_throws (w : World) (b k : string) (t : Trace) (e : Error) :
  gate w b k <> (t, Throw e).
Proof.
  intros H. pose proof (gate_run w b k) as Hg. rewrite H in Hg. inversion Hg.
Qed.

(** X8. Once the key is decoded, every rejection of the handler comes out of
    the catch block of lines 125 to 128: the last console line of the run
    is the error line, with the very error the run rejects with. *)
Theorem handler_rejection_is_logged (w : World) (event : Event) (r : S3Record)
    (k : string) (e : Error) :
  first_record event = Ok r ->
  decode_key (object_key r) = Ok k ->
  (handler w event).2 = Rejected e ->
  last (handler w event).1 = Some (error_line e).
Proof.
  intros Hr Hk. rewrite (handler_of_key w event r k Hr Hk).
  pose proof (gate_never_throws w (bucket_name r) k) as Hg.
  destruct (gate w (bucket_name r) k) as [tg [[]|v|eg]].
  - pose proof (pipeline_throw_logged w (bucket_name r) k) as Hp.
    destruct (pipeline w (bucket_name r) k) as [tp [[]|v|ep]];
      cbn [bind run app fst snd]; intros H; try discriminate H.
    injection H as ->.
    change (start_line event :: processing_line k :: tg ++ tp)
      with ((start_line event :: processing_line k :: tg) ++ tp).
    rewrite last_app, (Hp tp e eq_refl). reflexivity.
  - cbn [bind run app fst snd]. discriminate.
  - exfalso. apply (Hg tg eg). reflexivity.
Qed.

Lemma handler_rejection_is_logged_witness :
  last (handler world_get_denied (event_for "bk" "a.heic")).1
    = Some (error_line access_denied).
Proof.
  apply (handler_rejection_is_logged world_get_denied (event_for "bk" "a.heic")
           {| bucket_name := "bk"; object_key := "a.heic" |} "a.heic" access_denied).
  - reflexivity.
  - reflexivity.
  - reflexivity.
Defined.

(** X9. A failure of the write itself is fatal too: when the four stages
    succeed and PutObject is refused, the handler has sent that PutObject,
    once, and rejects with the error of the refusal. *)
Theorem handler_put_failure (w : World) (event : Event) (r : S3Record)
    (k : string) (resized : Buffer) (e : Error) :
  first_record event = Ok r ->
  decode_key (object_key r) = Ok k ->
  gate_passes w (bucket_name r) k ->
  imageType_of k = "heic" ->
  stages_ok w (bucket_name r) k resized ->
  s3_put w (published (bucket_name r) k resized) = Fail e ->
  (handler w event).2 = Rejected e /\
  puts (handler w event).1 = [published (bucket_name r) k resized].
Proof.
  intros Hr Hk Hg Ht Hs Hput.
  destruct (handler_transform w event r k resized Hr Hk Hg Ht Hs) as (Hc & _ & Hf).
  split; [apply Hf, Hput|].
  rewrite puts_of_commands, Hc. reflexivity.
Qed.

Lemma handler_put_failure_witness :
  (handler world_put_denied (event_for "bk" "a.heic")).2 = Rejected access_denied /\
  puts (handler world_put_denied (event_for "bk" "a.heic")).1
    = [published "bk" "a.heic" [x01; x02; x03; x0a; x0b]].
Proof.
  apply (handler_put_failure world_put_denied (event_for "bk" "a.heic")
           {| bucket_name := "bk"; object_key := "a.heic" |} "a.heic"
           [x01; x02; x03; x0a; x0b] access_denied).
  - reflexivity.
  - reflexivity.
  - intros h Hh. injection Hh as <-. reflexivity.
  - reflexivity.
  - exists {| Body := Some sample_body |}, [x01; x02; x03], [x01; x02; x03; x0a].
    repeat split.
  - reflexivity.
Defined.

Lemma gate_normal_passes (w : World) (b k : string) (tg : Trace) :
  GateRun w b k (tg, Normal tt) -> gate_passes w b k.
Proof.
  intros Hg h Hh. inversion Hg; subst; congruence.
Qed.

Lemma gate_return_flagged (w : World) (b k : string) (tg : Trace) (v : option string) :
  GateRun w b k (tg, Return v) -> ~ gate_passes w b k.
Proof.
  intros Hg Hp. inversion Hg; subst.
  match goal with H : s3_head _ _ _ = Ok ?h |- _ => specialize (Hp h H) end.
  congruence.
Qed.

(** X10. The payload is read exactly when the gate lets the object through
    and the type is 'heic': then GetObject is sent once, on the decoded
    key; in every other run no GetObject is sent. *)
Theorem handler_reads_payload_iff (w : World) (event : Event) (r : S3Record)
    (k : string) :
  first_record event = Ok r ->
  decode_key (object_key r) = Ok k ->
  (gets (handler w event).1 = [GetObjectCommand (bucket_name r) k] <->
   gate_passes w (bucket_name r) k /\ imageType_of k = "heic") /\
  (gets (handler w event).1 = [] \/
   gets (handler w event).1 = [GetObjectCommand (bucket_name r) k]).
Proof.
  intros Hr Hk. rewrite (handler_of_key w event r k Hr Hk).
  pose proof (gate_run w (bucket_name r) k) as Hg.
  pose proof (pipeline_run w (bucket_name r) k) as Hp.
  destruct (gate w (bucket_name r) k) as [tg cg].
  destruct (pipeline w (bucket_name r) k) as [tp cp].
  pose proof (gate_commands w _ k tg cg Hg) as Hcg.
  destruct cg as [[]|v|eg].
  - pose proof (gate_normal_passes w _ k tg Hg) as Hpass.
    assert (Hgets : forall c, gets (run (bind (start_line event :: [processing_line k], Normal tt)
                        (fun _ => bind (tg, Normal tt) (fun _ => (tp, c))))).1
                    = filter is_get (commands tp)).
    { intros c. destruct c as [[]|v|e]; cbn [bind run app fst];
        unfold gets;
        change (commands (start_line event :: processing_line k :: tg ++ tp))
          with (commands (tg ++ tp)); rewrite commands_app, Hcg; reflexivity. }
    rewrite Hgets.
    inversion Hp; subst.
    + (* unsupported *)
      change (filter is_get (commands [type_line k; unsupported_line k])) with (@nil Command).
      split; [|left; reflexivity]. split; [discriminate|].
      intros [_ Ht].
      match goal with H : includes supported _ = false |- _ =>
        apply includes_supported_false in H; contradiction end.
    + change (commands (type_line k :: t)) with (commands t).
      match goal with H : commands t = _ |- _ => rewrite H end.
      split; [|right; reflexivity]. split; [|reflexivity].
      intros _. split; [exact Hpass | apply includes_supported; assumption].
    + change (commands (type_line k :: t)) with (commands t).
      match goal with H : commands t = _ |- _ => rewrite H end.
      split; [|right; reflexivity]. split; [|reflexivity].
      intros _. split; [exact Hpass | apply includes_supported; assumption].
    + change (commands (type_line k :: t)) with (commands t).
      match goal with H : commands t = _ |- _ => rewrite H end.
      split; [|right; reflexivity]. split; [|reflexivity].
      intros _. split; [exact Hpass | apply includes_supported; assumption].
  - pose proof (gate_return_flagged w _ k tg v Hg) as Hflag.
    cbn [bind run app fst]. unfold gets.
    change (commands (start_line event :: processing_line k :: tg)) with (commands tg).
    rewrite Hcg. split; [|left; reflexivity].
    split; [discriminate|]. intros [Hpass _]. contradiction.
  - inversion Hg.
Qed.

Lemma handler_reads_payload_iff_witness :
  gets (handler world_head_denied (event_for "bk" "x/y.HeIc")).1
    = [GetObjectCommand "bk" "x/y.HeIc"].
Proof.
  destruct (handler_reads_payload_iff world_head_denied (event_for "bk" "x/y.HeIc")
              {| bucket_name := "bk"; object_key := "x/y.HeIc" |} "x/y.HeIc"
              eq_refl eq_refl) as [[_ H] _].
  apply H. split.
  - intros h Hh. discriminate Hh.
  - reflexivity.
Defined.

(** ** Further properties of the key resolution, lines 60 to 64 *)

Lemma scan_char_fields (p : string) (i : Z) (st : Scan) :
  startPart (scan_char p i st) = startPart st /\
  (matchedSlash (scan_char p i st) = true ->
   matchedSlash st = true /\ end_ st <> -1).
Proof.
  unfold scan_char.
  destruct (Z.eqb_spec (end_ st) (-1)) as [He|He];
    destruct (is_code (charCodeAt p i) CHAR_DOT); cbn [startDot];
    repeat match goal with
           | |- context [if ?c then _ else _] => destruct c
           end; cbn [startPart matchedSlash]; split; auto; discriminate.
Qed.

Lemma scan_char_pre (p : string) (i : Z) (st : Scan) :
  pre_inv (i + 1) st -> pre_inv i (scan_char p i st).
Proof.
  intros [Hge Hiff]. unfold scan_char, pre_inv.
  destruct (end_ st =? -1); cbn [startDot preDotState];
    destruct (is_code (charCodeAt p i) CHAR_DOT);
    destruct (Z.eqb_spec (startDot st) (-1)) as [H1|H1];
    cbn [negb startDot preDotState];
    try (destruct (Z.eqb_spec (preDotState st) 1) as [H2|H2];
         cbn [negb startDot preDotState]);
    lia.
Qed.

Lemma scan_pre (p : string) (start : Z) (n : nat) (st : Scan) :
  0 <= start <= Z.of_nat n ->
  startPart st = 0 ->
  (matchedSlash st = true ->
   end_ st = -1 /\ startDot st = -1 /\ preDotState st = 0) ->
  pre_inv (Z.of_nat n) st ->
  pre_inv (if startPart (scan p start n st) =? 0 then start
           else startPart (scan p start n st))
          (scan p start n st).
Proof.
  revert st. induction n as [|m IH]; intros st Hstart Hsp Hms Hpre.
  - cbn [scan]. rewrite Hsp. cbn [Z.eqb].
    replace start with (Z.of_nat 0) by lia. exact Hpre.
  - cbn [scan].
    destruct (Z.ltb_spec (Z.of_nat m) start) as [Hlt|Hge].
    + rewrite Hsp. cbn [Z.eqb].
      replace start with (Z.of_nat (S m)) by lia. exact Hpre.
    + destruct (is_code (charCodeAt p (Z.of_nat m)) CHAR_FORWARD_SLASH).
      * destruct (matchedSlash st) eqn:Hm; cbn [negb].
        -- destruct (Hms eq_refl) as (He & Hsd & Hpd).
           apply IH; [lia | exact Hsp | intros _; auto |].
           unfold pre_inv. rewrite Hsd, Hpd. split; [left; reflexivity|].
           split; auto.
        -- cbn [startPart].
           destruct (Z.eqb_spec (Z.of_nat m + 1) 0) as [?|_]; [lia|].
           replace (Z.of_nat m + 1) with (Z.of_nat (S m)) by lia.
           destruct Hpre as [H1 H2]. split; assumption.
      * destruct (scan_char_fields p (Z.of_nat m) st) as [Hsp' Hms'].
        apply IH; [lia | congruence | |].
        -- intros Ht. destruct (Hms' Ht) as [Hm He].
           destruct (Hms Hm) as (He' & _). contradiction.
        -- apply scan_char_pre.
           replace (Z.of_nat m + 1) with (Z.of_nat (S m)) by lia. exact Hpre.
Qed.

(** The scan of a key that splits into [pre] and [fname]: the last segment
    begins at the length of [pre]. *)
Lemma segment_scan (k : string) (pre fname : list ascii) :
  splits_at k pre fname ->
  let isAbsolute := is_code (charCodeAt k 0) CHAR_FORWARD_SLASH in
  let start := if isAbsolute then 1 else 0 in
  let st := scan k start (Z.to_nat (strlen k)) scan0 in
  strlen k <> 0 /\
  end_ st = strlen k /\
  (if (startPart st =? 0) && isAbsolute then 1 else startPart st)
    = Z.of_nat (length pre) /\
  dot_found (chars k) (Z.of_nat (length pre)) st /\
  pre_inv (Z.of_nat (length pre)) st.
Proof.
  intros (Hk & Hpre & Hne & Hns) isAbsolute start st.
  assert (Hlen : strlen k = Z.of_nat (length pre) + Z.of_nat (length fname)).
  { unfold strlen. rewrite Hk, length_app. lia. }
  assert (Hpos : (0 < length fname)%nat) by (destruct fname; [congruence|simpl; lia]).
  assert (Hlen0 : strlen k <> 0) by lia.
  assert (Hseg : forall j, Z.of_nat (length pre) <= j ->
                   chars k !! Z.to_nat j <> Some CHAR_FORWARD_SLASH).
  { intros j Hj. rewrite Hk. apply segment_lookup; assumption. }
  assert (Hlast : chars k !! Z.to_nat (strlen k - 1) <> Some CHAR_FORWARD_SLASH)
    by (apply Hseg; lia).
  assert (Hsep : pre = [] \/
                 ((0 < length pre)%nat /\
                  chars k !! Z.to_nat (Z.of_nat (length pre) - 1)
                    = Some CHAR_FORWARD_SLASH)).
  { destruct Hpre as [->|Hl]; [left; reflexivity|right].
    assert (Hp : (0 < length pre)%nat) by (destruct pre; [discriminate Hl|simpl; lia]).
    split; [exact Hp|]. rewrite Hk, lookup_app_l by lia.
    rewrite last_lookup in Hl.
    replace (Z.to_nat (Z.of_nat (length pre) - 1)) with (pred (length pre)) by lia.
    exact Hl. }
  pose proof (start_in_range k Hlen0 Hlast) as Hrange.
  pose proof (scan_all k _ Hrange Hlast) as Hpost.
  fold isAbsolute in Hrange, Hpost. fold start in Hrange, Hpost. fold st in Hpost.
  assert (Hpi : pre_inv (if startPart st =? 0 then start else startPart st) st).
  { subst st. apply scan_pre.
    - unfold strlen in *. lia.
    - reflexivity.
    - intros _. repeat split.
    - split; [left; reflexivity|]. split; [left; reflexivity|reflexivity]. }
  destruct Hpost as [Hend Hpost]. change (Z.of_nat (length (chars k))) with (strlen k) in *.
  split; [exact Hlen0|]. split; [exact Hend|].
  destruct Hpost as [(Hsp & Hnc & Hdot) | (Hsp & Hat & Hnc & Hdot)].
  - (* no separator from [start] on *)
    rewrite Hsp in *. cbn [Z.eqb andb] in *.
    assert (Hs0 : start = Z.of_nat (length pre)).
    { destruct Hsep as [->|[Hp Hsl]].
      - subst start. destruct isAbsolute eqn:Ha; [|reflexivity]. exfalso.
        apply is_code_true in Ha; [|lia]. apply (Hseg 0); [simpl; lia | exact Ha].
      - assert (Hle : Z.of_nat (length pre) - 1 < start).
        { destruct (Z.lt_ge_cases (Z.of_nat (length pre) - 1) start) as [?|Hge];
            [assumption|].
          exfalso. apply (Hnc (Z.of_nat (length pre) - 1)); [lia | exact Hsl]. }
        assert (H1 : length pre = 1%nat) by (subst start; destruct isAbsolute; lia).
        subst start. destruct isAbsolute eqn:Ha; [lia|]. exfalso.
        apply (is_code_false k 0 CHAR_FORWARD_SLASH) in Ha; [|lia]. apply Ha.
        rewrite H1 in Hsl. exact Hsl. }
    split; [|split].
    + subst start. destruct isAbsolute; exact Hs0.
    + rewrite <- Hs0. exact Hdot.
    + rewrite <- Hs0. exact Hpi.
  - (* the last separator is at [startPart st - 1] *)
    assert (Hsp0 : (startPart st =? 0) = false) by (apply Z.eqb_neq; lia).
    rewrite Hsp0 in *. cbn [andb].
    assert (Hs0 : startPart st = Z.of_nat (length pre)).
    { assert (Hle : startPart st - 1 < Z.of_nat (length pre)).
      { destruct (Z.lt_ge_cases (startPart st - 1) (Z.of_nat (length pre))) as [?|Hge];
          [assumption|].
        exfalso. apply (Hseg (startPart st - 1)); [lia | exact Hat]. }
      destruct Hsep as [->|[Hp Hsl]]; [simpl in Hle; lia|].
      destruct (Z.lt_ge_cases (Z.of_nat (length pre) - 1) (startPart st)) as [?|Hge];
        [lia|].
      exfalso. apply (Hnc (Z.of_nat (length pre) - 1)); [lia | exact Hsl]. }
    rewrite <- Hs0. split; [reflexivity|]. split; assumption.
Qed.

Lemma last_dot_position (l pre stem e : list ascii) (st : Scan) :
  l = pre ++ stem ++ CHAR_DOT :: e ->
  CHAR_DOT ∉ e ->
  dot_found l (Z.of_nat (length pre)) st ->
  startDot st = Z.of_nat (length pre) + Z.of_nat (length stem).
Proof.
  intros Hl He Hdot.
  assert (Hl' : l = (pre ++ stem) ++ CHAR_DOT :: e) by (rewrite <- app_assoc; exact Hl).
  assert (Hlen : length l = (length pre + length stem + S (length e))%nat).
  { rewrite Hl', length_app, length_app. reflexivity. }
  assert (Hd : l !! (length pre + length stem)%nat = Some CHAR_DOT).
  { rewrite Hl'. apply list_lookup_middle. rewrite length_app. reflexivity. }
  assert (Hafter : forall j : nat, (length pre + length stem < j)%nat ->
                     l !! j <> Some CHAR_DOT).
  { intros j Hj Hc. apply He. rewrite Hl' in Hc.
    rewrite lookup_app_r in Hc by (rewrite length_app; lia).
    rewrite lookup_cons_ne_0 in Hc by (rewrite length_app; lia).
    eapply list_elem_of_lookup_2. exact Hc. }
  destruct Hdot as [[_ Hnone] | (Hsd & Hat & Hnone)].
  - exfalso.
    apply (Hnone (Z.of_nat (length pre + length stem))); [lia|].
    rewrite Nat2Z.id. exact Hd.
  - destruct (Z.lt_trichotomy (startDot st)
                (Z.of_nat (length pre) + Z.of_nat (length stem))) as [Hlt|[Heq|Hgt]].
    + exfalso.
      apply (Hnone (Z.of_nat (length pre + length stem))); [lia|].
      rewrite Nat2Z.id. exact Hd.
    + exact Heq.
    + exfalso. apply (Hafter (Z.to_nat (startDot st))); [lia | exact Hat].
Qed.

(** X11. The last dot of the last segment splits it: for a key whose last
    segment is [stem], a dot, and [e], where [stem] and [e] are not empty
    and [e] has no dot, the resolved base name is [stem], also when [stem]
    has dots of its own, and the resolved extension is [e]; the type the
    handler classifies is [e] in lower case, whatever the directory. *)
Theorem key_stem_and_extension (k : string) (pre stem e : list ascii) :
  splits_at k pre (stem ++ CHAR_DOT :: e) ->
  stem <> [] -> e <> [] -> CHAR_DOT ∉ e ->
  base (parse k) = str (stem ++ CHAR_DOT :: e) /\
  name (parse k) = str stem /\
  ext_of k = str e /\
  imageType_of k = toLowerCase (str e).
Proof.
  intros Hsplit Hstem He Hnd.
  pose proof (segment_scan k pre _ Hsplit) as HS. cbv zeta in HS.
  destruct Hsplit as (Hk & _ & _ & _).
  assert (Hparts : base (parse k) = str (stem ++ CHAR_DOT :: e) /\
                   name (parse k) = str stem /\
                   ext (parse k) = str (CHAR_DOT :: e)).
  { unfold parse.
    set (isAbsolute := is_code (charCodeAt k 0) CHAR_FORWARD_SLASH) in *.
    set (start := if isAbsolute then 1 else 0) in *.
    set (st := scan k start (Z.to_nat (strlen k)) scan0) in *.
    destruct HS as (Hlen0 & Hend & Hs0 & Hdot & [_ Hpre]).
    rewrite (proj2 (Z.eqb_neq _ _) Hlen0), Hs0.
    pose proof (last_dot_position _ _ _ _ st Hk Hnd Hdot) as Hsd.
    assert (Hlen : strlen k = Z.of_nat (length pre) + Z.of_nat (length stem)
                              + 1 + Z.of_nat (length e)).
    { unfold strlen. rewrite Hk, !length_app. cbn [length]. lia. }
    assert (Hstem' : (0 < length stem)%nat) by (destruct stem; [congruence|simpl; lia]).
    assert (He' : (0 < length e)%nat) by (destruct e; [congruence|simpl; lia]).
    assert (Hseg : segment k st (Z.of_nat (length pre))
                   = (str (stem ++ CHAR_DOT :: e), str stem, str (CHAR_DOT :: e))).
    { unfold segment.
      assert (H1 : (end_ st =? -1) = false) by (apply Z.eqb_neq; lia).
      assert (H2 : (startDot st =? -1) = false) by (apply Z.eqb_neq; lia).
      assert (H3 : (preDotState st =? 0) = false) by (apply Z.eqb_neq; lia).
      assert (H4 : (startDot st =? end_ st - 1) = false) by (apply Z.eqb_neq; lia).
      rewrite H1, H2, H3, H4, andb_false_r. cbn [orb andb].
      rewrite Hend, Hsd, Hlen. unfold slice. rewrite Hk.
      rewrite Nat2Z.id.
      replace (Z.to_nat (Z.of_nat (length pre) + Z.of_nat (length stem) + 1
                         + Z.of_nat (length e)) - length pre)%nat
        with (length (stem ++ CHAR_DOT :: e))
        by (rewrite length_app; cbn [length]; lia).
      replace (Z.to_nat (Z.of_nat (length pre) + Z.of_nat (length stem)) - length pre)%nat
        with (length stem) by lia.
      replace (Z.to_nat (Z.of_nat (length pre) + Z.of_nat (length stem) + 1
                         + Z.of_nat (length e))
               - Z.to_nat (Z.of_nat (length pre) + Z.of_nat (length stem)))%nat
        with (length (CHAR_DOT :: e)) by (cbn [length]; lia).
      rewrite drop_app_length, firstn_all, take_app_length.
      rewrite app_assoc.
      rewrite (drop_app_length' (pre ++ stem)) by (rewrite length_app; lia).
      rewrite firstn_all. reflexivity. }
    rewrite Hseg. cbn [base name ext]. repeat split. }
  destruct Hparts as (Hb & Hn & Hx).
  assert (Hext : ext_of k = str e).
  { unfold ext_of. rewrite Hx. apply replace_dot_leading. }
  repeat (split; [assumption|]).
  unfold imageType_of. rewrite Hext. reflexivity.
Qed.

Lemma key_stem_and_extension_witness :
  base (parse "2024/trip.v2/IMG.0042.HeIc") = "IMG.0042.HeIc" /\
  name (parse "2024/trip.v2/IMG.0042.HeIc") = "IMG.0042" /\
  ext_of "2024/trip.v2/IMG.0042.HeIc" = "HeIc" /\
  imageType_of "2024/trip.v2/IMG.0042.HeIc" = "heic".
Proof.
  apply (key_stem_and_extension "2024/trip.v2/IMG.0042.HeIc"
           (chars "2024/trip.v2/") (chars "IMG.0042") (chars "HeIc")).
  - split; [reflexivity|]. split; [right; reflexivity|].
    split; [discriminate|].
    intros H. vm_compute in H.
    repeat (apply elem_of_cons in H as [H|H]; [discriminate H|]).
    inversion H.
  - discriminate.
  - discriminate.
  - intros H. vm_compute in H.
    repeat (apply elem_of_cons in H as [H|H]; [discriminate H|]).
    inversion H.
Defined.

Lemma handler_other_type (w : World) (event : Event) (r : S3Record) (k : string) :
  first_record event = Ok r ->
  decode_key (object_key r) = Ok k ->
  imageType_of k <> "heic" ->
  (handler w event).2 = Resolved None /\
  gets (handler w event).1 = [] /\
  puts (handler w event).1 = [].
Proof.
  intros Hr Hk Ht. split.
  - pose proof (handler_run w event) as Hrun.
    destruct (handler w event) as [t o]. cbn [snd].
    inversion Hrun; subst; try congruence.
    assert (r0 = r) by congruence. subst r0.
    assert (k0 = k) by congruence. subst k0.
    match goal with Hp : PipelineRun _ _ _ _ |- _ => inversion Hp; subst end;
      try reflexivity;
      match goal with H : includes supported _ = true |- _ =>
        apply includes_supported in H; contradiction end.
  - unfold gets. rewrite puts_of_commands.
    destruct (handler_commands w event)
      as [H | (r' & k' & Hr' & Hk' & [H | (Ht' & _)])].
    + rewrite H. split; reflexivity.
    + rewrite H. split; reflexivity.
    + assert (k' = k) by congruence. subst k'. contradiction.
Qed.

(** X12. A last segment that begins with its only dot, like ".heic" or
    "photos/.heic", has no extension: the whole segment is the base name,
    and the handler ends the run as for an unsupported type, without
    reading or writing the object. *)
Theorem key_hidden_segment (w : World) (event : Event) (r : S3Record)
    (k : string) (pre e : list ascii) :
  first_record event = Ok r ->
  decode_key (object_key r) = Ok k ->
  splits_at k pre (CHAR_DOT :: e) ->
  CHAR_DOT ∉ e ->
  name (parse k) = str (CHAR_DOT :: e) /\
  ext_of k = "" /\
  (handler w event).2 = Resolved None /\
  gets (handler w event).1 = [] /\
  puts (handler w event).1 = [].
Proof.
  intros Hr Hk Hsplit Hnd.
  pose proof (segment_scan k pre _ Hsplit) as HS. cbv zeta in HS.
  destruct Hsplit as (Hc & _ & _ & _).
  assert (Hparts : name (parse k) = str (CHAR_DOT :: e) /\ ext (parse k) = "").
  { unfold parse.
    set (isAbsolute := is_code (charCodeAt k 0) CHAR_FORWARD_SLASH) in *.
    set (start := if isAbsolute then 1 else 0) in *.
    set (st := scan k start (Z.to_nat (strlen k)) scan0) in *.
    destruct HS as (Hlen0 & Hend & Hs0 & Hdot & [_ Hpre]).
    rewrite (proj2 (Z.eqb_neq _ _) Hlen0), Hs0.
    pose proof (last_dot_position _ pre [] e st Hc Hnd Hdot) as Hsd.
    cbn [length] in Hsd.
    assert (Hlen : strlen k = Z.of_nat (length pre) + 1 + Z.of_nat (length e)).
    { unfold strlen. rewrite Hc, !length_app. cbn [length]. lia. }
    assert (Hseg : segment k st (Z.of_nat (length pre))
                   = (str (CHAR_DOT :: e), str (CHAR_DOT :: e), "")).
    { unfold segment.
      assert (H1 : (end_ st =? -1) = false) by (apply Z.eqb_neq; lia).
      assert (H2 : (startDot st =? -1) = false) by (apply Z.eqb_neq; lia).
      assert (H3 : (preDotState st =? 0) = true) by (apply Z.eqb_eq; lia).
      rewrite H1, H2, H3. cbn [orb].
      rewrite Hend, Hlen. unfold slice. rewrite Hc, Nat2Z.id.
      replace (Z.to_nat (Z.of_nat (length pre) + 1 + Z.of_nat (length e)) - length pre)%nat
        with (length (CHAR_DOT :: e)) by (cbn [length]; lia).
      rewrite drop_app_length, firstn_all. reflexivity. }
    rewrite Hseg. cbn [name ext]. split; reflexivity. }
  destruct Hparts as [Hn Hx].
  assert (Hext : ext_of k = "") by (unfold ext_of; rewrite Hx; reflexivity).
  split; [exact Hn|]. split; [exact Hext|].
  apply (handler_other_type w event r k Hr Hk).
  unfold imageType_of. rewrite Hext. discriminate.
Qed.

Lemma key_hidden_segment_witness :
  name (parse "photos/.heic") = ".heic" /\
  ext_of "photos/.heic" = "" /\
  (handler world_ok (event_for "bk" "photos/.heic")).2 = Resolved None /\
  gets (handler world_ok (event_for "bk" "photos/.heic")).1 = [] /\
  puts (handler world_ok (event_for "bk" "photos/.heic")).1 = [].
Proof.
  apply (key_hidden_segment world_ok (event_for "bk" "photos/.heic")
           {| bucket_name := "bk"; object_key := "photos/.heic" |} "photos/.heic"
           (chars "photos/") (chars "heic")).
  - reflexivity.
  - reflexivity.
  - split; [reflexivity|]. split; [right; reflexivity|].
    split; [discriminate|].
    intros H. vm_compute in H.
    repeat (apply elem_of_cons in H as [H|H]; [discriminate H|]).
    inversion H.
  - intros H. vm_compute in H.
    repeat (apply elem_of_cons in H as [H|H]; [discriminate H|]).
    inversion H.
Defined.

(** ** Further properties of the gate and of the published object *)

Lemma processed_flag_true (meta : gmap string string) :
  processed_flag meta = true <->
  exists v,
    toLowerCase v = "true" /\
    (meta !! "image-processed" = Some v \/
     ((meta !! "image-processed" = None \/ meta !! "image-processed" = Some "") /\
      meta !! "Image-Processed" = Some v)).
Proof.
  unfold processed_flag. split.
  - destruct (meta !! "image-processed") as [[|c x]|] eqn:H1.
    + rewrite or_else_empty.
      destruct (meta !! "Image-Processed") as [[|c y]|] eqn:H2.
      * rewrite or_else_empty. discriminate.
      * rewrite or_else_keeps by discriminate. intros H.
        apply String.eqb_eq in H. exists (String c y). split; [exact H|]. right. auto.
      * rewrite or_else_undefined. discriminate.
    + rewrite !or_else_keeps by discriminate. intros H.
      apply String.eqb_eq in H. exists (String c x). split; [exact H|]. left. reflexivity.
    + rewrite or_else_undefined.
      destruct (meta !! "Image-Processed") as [[|c y]|] eqn:H2.
      * rewrite or_else_empty. discriminate.
      * rewrite or_else_keeps by discriminate. intros H.
        apply String.eqb_eq in H. exists (String c y). split; [exact H|]. right. auto.
      * rewrite or_else_undefined. discriminate.
  - intros (v & Hv & Hcase).
    assert (Hne : v <> "") by (intros ->; discriminate Hv).
    destruct Hcase as [H1 | [[H1 | H1] H2]]; rewrite H1; try rewrite H2;
      rewrite ?or_else_undefined, ?or_else_empty;
      rewrite !(or_else_keeps v) by assumption;
      rewrite Hv; reflexivity.
Qed.

(** X13. When HeadObject answers, the run is the skip run (HeadObject, the
    skip line, no value) exactly when the value read from the metadata, the
    one under 'image-processed' or, that one missing or empty, the one
    under 'Image-Processed', lowercases to "true"; in particular a missing
    [Metadata], or a flag such as "1" or "yes", does not skip. *)
Theorem handler_skip_iff (w : World) (event : Event) (r : S3Record)
    (k : string) (h : HeadObjectOutput) :
  first_record event = Ok r ->
  decode_key (object_key r) = Ok k ->
  s3_head w (bucket_name r) k = Ok h ->
  handler w event =
    ([start_line event; processing_line k;
      Send (HeadObjectCommand (bucket_name r) k); skip_line], Resolved None)
  <->
  exists meta v,
    Metadata h = Some meta /\ toLowerCase v = "true" /\
    (meta !! "image-processed" = Some v \/
     ((meta !! "image-processed" = None \/ meta !! "image-processed" = Some "") /\
      meta !! "Image-Processed" = Some v)).
Proof.
  intros Hr Hk Hh. rewrite (handler_of_key w event r k Hr Hk).
  destruct (processed_flag (default ∅ (Metadata h))) eqn:Hp.
  - rewrite (gate_of_flagged w _ k h Hh Hp). split; [intros _|reflexivity].
    apply processed_flag_true in Hp as (v & Hv & Hcase).
    destruct (Metadata h) as [meta|]; cbn [default] in Hcase.
    + exists meta, v. auto.
    + exfalso. rewrite !lookup_empty in Hcase.
      destruct Hcase as [H | [_ H]]; discriminate H.
  - rewrite (gate_of_unflagged w _ k h Hh Hp). split.
    + pose proof (pipeline_run w (bucket_name r) k) as Hrun.
      destruct (pipeline w (bucket_name r) k) as [tp cp].
      apply pipeline_starts in Hrun.
      destruct tp as [|line tp]; [discriminate Hrun|].
      injection Hrun as ->.
      destruct cp as [[]|v|e]; cbn [bind run app]; intros H; discriminate H.
    + intros (meta & v & Hm & Hv & Hcase). exfalso.
      assert (Ht : processed_flag (default ∅ (Metadata h)) = true).
      { rewrite Hm. cbn [default]. apply processed_flag_true. exists v. auto. }
      congruence.
Qed.

Lemma handler_skip_iff_witness :
  handler (world_with (Some {[ "image-processed" := ""; "Image-Processed" := "True" ]}))
    (event_for "bk" "a.heic")
  = ([start_line (event_for "bk" "a.heic"); processing_line "a.heic";
      Send (HeadObjectCommand "bk" "a.heic"); skip_line], Resolved None).
Proof.
  apply (handler_skip_iff
           (world_with (Some {[ "image-processed" := ""; "Image-Processed" := "True" ]}))
           (event_for "bk" "a.heic")
           {| bucket_name := "bk"; object_key := "a.heic" |} "a.heic"
           {| Metadata := Some {[ "image-processed" := ""; "Image-Processed" := "True" ]} |}
           eq_refl eq_refl eq_refl).
  exists {[ "image-processed" := ""; "Image-Processed" := "True" ]}, "True".
  split; [reflexivity|]. split; [reflexivity|].
  right. split; [right|]; reflexivity.
Defined.

(** X14. Every object the handler publishes has ContentType "image/jpg" and
    exactly the same four metadata entries, with 'original-ext' "heic" and
    'output-format' "jpg", at the decoded key of the first record; the
    'jpeg' and pass-through results of line 108 are never published. *)
Theorem published_object_is_constant (w : World) (event : Event)
    (i : PutObjectInput) :
  i ∈ puts (handler w event).1 ->
  put_ContentType i = "image/jpg" /\
  put_Metadata i =
    {[ "image-processed" := "true"; "processed-width" := "1000";
       "original-ext" := "heic"; "output-format" := "jpg" ]} /\
  exists r,
    first_record event = Ok r /\ put_Bucket i = bucket_name r /\
    decode_key (object_key r) = Ok (put_Key i).
Proof.
  intros Hi.
  apply handler_puts in Hi as (r & k & resized & Hr & Hk & Ht & _ & -> & _).
  unfold published, put_request. cbn [put_ContentType put_Metadata put_Bucket put_Key].
  rewrite Ht. split; [reflexivity|]. split; [vm_compute; reflexivity|].
  exists r. auto.
Qed.

Lemma published_object_is_constant_witness :
  put_ContentType (published "bk" "x/Photo.HEIC" [x01; x02; x03; x0a; x0b]) = "image/jpg" /\
  put_Metadata (published "bk" "x/Photo.HEIC" [x01; x02; x03; x0a; x0b]) =
    {[ "image-processed" := "true"; "processed-width" := "1000";
       "original-ext" := "heic"; "output-format" := "jpg" ]} /\
  exists r,
    first_record (event_for "bk" "x/Photo.HEIC") = Ok r /\
    put_Bucket (published "bk" "x/Photo.HEIC" [x01; x02; x03; x0a; x0b]) = bucket_name r /\
    decode_key (object_key r)
      = Ok (put_Key (published "bk" "x/Photo.HEIC" [x01; x02; x03; x0a; x0b])).
Proof.
  apply (published_object_is_constant world_ok (event_for "bk" "x/Photo.HEIC")
           (published "bk" "x/Photo.HEIC" [x01; x02; x03; x0a; x0b])).
  vm_compute. left.
Defined.

Lemma handler_stage_failure_commands w event r k e :
  first_record event = Ok r ->
  decode_key (object_key r) = Ok k ->
  gate_passes w (bucket_name r) k ->
  imageType_of k = "heic" ->
  StageFails w (bucket_name r) k e ->
  commands (handler w event).1 =
    [HeadObjectCommand (bucket_name r) k; GetObjectCommand (bucket_name r) k].
Proof.
  intros Hr Hk Hg Ht Hf.
  rewrite (handler_of_key w event r k Hr Hk).
  destruct (gate_of_passes w _ k Hg) as (tg & -> & Hc).
  pose proof (pipeline_run w (bucket_name r) k) as Hp.
  destruct (pipeline w (bucket_name r) k) as [tp cp].
  inversion Hp; subst; cbn [bind run app fst snd].
  - match goal with H : includes supported _ = false |- _ =>
      apply includes_supported_false in H; contradiction end.
  - change (commands (start_line event :: processing_line k :: tg ++ type_line k :: t))
      with (commands (tg ++ type_line k :: t)).
    rewrite commands_app, Hc. change (commands (type_line k :: t)) with (commands t).
    match goal with H : commands t = _ |- _ => rewrite H end. reflexivity.
  - exfalso. eapply stages_ok_excludes_failure; eauto.
  - exfalso. eapply stages_ok_excludes_failure; eauto.
Qed.

(** X15. When GetObject answers without a body, or with a body that has
    none of the three read methods, and the gate has let a 'heic' key
    through, the handler rejects with the error 'Unsupported S3 Body type'
    after HeadObject and GetObject, and nothing is written. *)
Theorem handler_unreadable_body (w : World) (event : Event) (r : S3Record)
    (k : string) (out : GetObjectOutput) :
  first_record event = Ok r ->
  decode_key (object_key r) = Ok k ->
  gate_passes w (bucket_name r) k ->
  imageType_of k = "heic" ->
  s3_get w (bucket_name r) k = Ok out ->
  (Body out = None \/
   exists b, Body out = Some b /\ read b = None /\ getReader b = None /\
             transformToByteArray b = None) ->
  (handler w event).2 = Rejected (PlainError "Unsupported S3 Body type") /\
  commands (handler w event).1 =
    [HeadObjectCommand (bucket_name r) k; GetObjectCommand (bucket_name r) k].
Proof.
  intros Hr Hk Hg Ht Hget Hbody.
  assert (Hb : bodyToBuffer (Body out) = Fail (PlainError "Unsupported S3 Body type")).
  { destruct Hbody as [-> | (b & -> & H1 & H2 & H3)]; [reflexivity|].
    unfold bodyToBuffer. rewrite H1, H2, H3. reflexivity. }
  assert (Hf : StageFails w (bucket_name r) k (PlainError "Unsupported S3 Body type"))
    by (eapply collect_fails; eauto).
  split; [apply (handler_stage_failure w event r k _ Hr Hk Hg Ht Hf)|].
  apply (handler_stage_failure_commands w event r k _ Hr Hk Hg Ht Hf).
Qed.

Lemma handler_unreadable_body_witness :
  (handler (with_head
              {| s3_head := s3_head world_ok;
                 s3_get := fun _ _ => Ok {| Body := None |};
                 s3_put := s3_put world_ok;
                 heicConvert := heicConvert world_ok;
                 sharp := sharp world_ok |} (s3_head world_ok))
     (event_for "bk" "a.heic")).2
    = Rejected (PlainError "Unsupported S3 Body type") /\
  commands
    (handler (with_head
                {| s3_head := s3_head world_ok;
                   s3_get := fun _ _ => Ok {| Body := None |};
                   s3_put := s3_put world_ok;
                   heicConvert := heicConvert world_ok;
                   sharp := sharp world_ok |} (s3_head world_ok))
       (event_for "bk" "a.heic")).1
    = [HeadObjectCommand "bk" "a.heic"; GetObjectCommand "bk" "a.heic"].
Proof.
  apply (handler_unreadable_body _ (event_for "bk" "a.heic")
           {| bucket_name := "bk"; object_key := "a.heic" |} "a.heic"
           {| Body := None |}).
  - reflexivity.
  - reflexivity.
  - intros h Hh. injection Hh as <-. reflexivity.
  - reflexivity.
  - reflexivity.
  - left. reflexivity.
Defined.

(** X16. The metadata are fetched for every key that decodes, before the
    key is parsed and whatever its type: HeadObject on the bucket of the
    first record and the decoded key is the first command of the run. *)
Theorem handler_head_comes_first (w : World) (event : Event) (r : S3Record)
    (k : string) :
  first_record event = Ok r ->
  decode_key (object_key r) = Ok k ->
  head (commands (handler w event).1) = Some (HeadObjectCommand (bucket_name r) k).
Proof.
  intros Hr Hk. rewrite (handler_of_key w event r k Hr Hk).
  pose proof (gate_run w (bucket_name r) k) as Hg.
  destruct (gate w (bucket_name r) k) as [tg cg].
  pose proof (gate_commands w _ k tg cg Hg) as Hc.
  destruct (pipeline w (bucket_name r) k) as [tp cp].
  destruct cg as [[]|v|e]; [destruct cp as [[]|v|e]| |]; cbn [bind run app fst];
    try (change (commands (start_line event :: processing_line k :: tg ++ tp))
           with (commands (tg ++ tp)); rewrite commands_app, Hc; reflexivity);
    change (commands (start_line event :: processing_line k :: tg)) with (commands tg);
    rewrite Hc; reflexivity.
Qed.

Lemma handler_head_comes_first_witness :
  head (commands (handler world_ok (event_for "bk" "notes/readme.txt")).1)
    = Some (HeadObjectCommand "bk" "notes/readme.txt").
Proof.
  apply (handler_head_comes_first world_ok (event_for "bk" "notes/readme.txt")
           {| bucket_name := "bk"; object_key := "notes/readme.txt" |}
           "notes/readme.txt").
  - reflexivity.
  - reflexivity.
Defined.

(** ** Checks on concrete inputs *)

Example parse_nested :
  parse "a/b/photo name.HEIC" = mkParsed "" "a/b" "photo name.HEIC" ".HEIC" "photo name".
Proof. vm_compute. reflexivity. Qed.

Example parse_absolute :
  parse "/home/user/dir/file.txt" = mkParsed "/" "/home/user/dir" "file.txt" ".txt" "file".
Proof. vm_compute. reflexivity. Qed.

Example parse_hidden : parse ".bashrc" = mkParsed "" "" ".bashrc" "" ".bashrc".
Proof. vm_compute. reflexivity. Qed.

Example parse_dotdot : parse "x/.." = mkParsed "" "x" ".." "" "..".
Proof. vm_compute. reflexivity. Qed.

Example parse_root_file : parse "/a.txt" = mkParsed "/" "/" "a.txt" ".txt" "a".
Proof. vm_compute. reflexivity. Qed.

Example parse_folder : parse "folder/" = mkParsed "" "" "folder" "" "folder".
Proof. vm_compute. reflexivity. Qed.

Example line_108_second_branch : outputFiletype "jpg" = "jpeg".
Proof. reflexivity. Qed.

Example jpg_stops_at_the_allowlist :
  commands (handler world_ok (event_for "bk" "x.jpg")).1 = [HeadObjectCommand "bk" "x.jpg"].
Proof. vm_compute. reflexivity. Qed.

Example rejoin_folder : rejoin_key "folder/" = "folder".
Proof. vm_compute. reflexivity. Qed.

Example rejoin_root_file : rejoin_key "/a.heic" = "//a.heic".
Proof. vm_compute. reflexivity. Qed.

Example collect_web_stream :
  bodyToBuffer
    (Some {| read := None; getReader := Some (SChunk [x01] (SChunk [x02; x03] SEnd));
             transformToByteArray := None |}) = Ok [x01; x02; x03].
Proof. reflexivity. Qed.

Example collect_broken_stream :
  bodyToBuffer
    (Some {| read := Some (SChunk [x01] (SError access_denied)); getReader := None;
             transformToByteArray := None |}) = Fail access_denied.
Proof. reflexivity. Qed.

Example collect_unknown_body :
  bodyToBuffer (Some {| read := None; getReader := None; transformToByteArray := None |})
    = Fail (PlainError "Unsupported S3 Body type").
Proof. reflexivity. Qed.

Example handler_bad_escape :
  handler world_ok (event_for "bk" "a%zz.heic")
    = ([start_line (event_for "bk" "a%zz.heic")], Rejected (URIError "URI malformed")).
Proof. vm_compute. reflexivity. Qed.

Example decode_plain : decodeURIComponent "photo name.HEIC" = Some "photo name.HEIC".
Proof. vm_compute. reflexivity. Qed.

Example decode_escapes :
  decodeURIComponent "a%2Fb%20c%e3%81%82.heic"
    = Some ("a/b c" +:+ str [byte_char 227; byte_char 129; byte_char 130] +:+ ".heic").
Proof. vm_compute. reflexivity. Qed.

Example decode_malformed :
  decodeURIComponent "a%2" = None /\ decodeURIComponent "%zz" = None /\
  decodeURIComponent "%80" = None /\ decodeURIComponent "%C0%80" = None /\
  decodeURIComponent "%ED%A0%80" = None /\ decodeURIComponent "%E3%81x" = None.
Proof. vm_compute. repeat split. Qed.

Example key_with_plus : decode_key "photo+name%2B1.HEIC" = Ok "photo name+1.HEIC".
Proof. vm_compute. reflexivity. Qed.
